(** * OptACC tuner: evaluation harness, replay mode, heuristic gate, grid enumeration

    A shallow embedding of [tuner.py] and of the point generator of
    [tuner/methods/RSM.py].

    Conventions of the embedding.
    - Python integers are [Z].
    - The value of a Python float is a rational [Q]; infinities and NaN are
      outside the model.  Comparisons of floats are those of their values.
      The arithmetic that aggregates the timings of a point (sum, difference,
      quotient, power, [math.sqrt]) and the scaling of a kernel timing round
      their results; these operations are functions of the platform (see
      [World]), so that nothing is said about a rounded value beyond the
      operation that produced it.  Two quotients are written over the
      rationals, each with the reason at its definition: the share of
      [percentile] and the quotient under [math.ceil] in the grid.
    - A dict is a [gmap]; [os.environ] is a [gmap string string].
    - Everything the program does to the outside (running a command, reporting
      a raw run, handing a Result to the sink) is recorded in a chronological
      trace of [Event]s, threaded through a state-and-exception monad [M]
      together with the mutable [TuningOptions] object.
    - Logging through [LOGGER] has no influence on control flow and is left
      out. *)

From Stdlib Require Import QArith Qround Ascii.
From stdpp Require Import base option list gmap strings pretty sorting.

Local Open Scope string_scope.
Local Open Scope Z_scope.
Local Open Scope list_scope.

(** ** Data model *)

(** Modelled from the spec: the class [Point] of module [point], which is not
    among the sources: an ordered pair of integers, compared and hashed by
    value; [x[0]] is the gang count and [x[1]] the vector length. *)
Definition Point : Type := Z * Z.

(** Modelled from the spec: the class [TestResult] of module [testresult],
    which is not among the sources.  The fields are those of the constructor
    calls in [tuner.py]: [TestResult(point, average, stdev)] and
    [TestResult(point, error=msg)]; an argument left out is [None]. *)
Record TestResult := mkTestResult {
  point : Point;
  average : option Q;
  stdev : option Q;
  error : option string
}.

(** [TestResult(x, avg, stdev)] *)
Definition TestResult_ok (x : Point) (avg sd : Q) : TestResult :=
  mkTestResult x (Some avg) (Some sd) None.

(** [TestResult(x, error=msg)] *)
Definition TestResult_error (x : Point) (msg : string) : TestResult :=
  mkTestResult x None None (Some msg).

(** Python exceptions that the modelled code can raise or let through. *)
Inductive exn :=
| KeyError (key : string)
| ValueError
| TypeError
| IndexError
| ZeroDivisionError
| OverflowError
| SystemExit (code : Z).

Inductive outcome (A : Type) :=
| Ok (a : A)
| Raise (e : exn).
Arguments Ok {A} a.
Arguments Raise {A} e.

(** [class TuningOptions].  A compiled regular expression is represented by
    its [search], returning the text of group 1 of the first match. *)
Record TuningOptions := mkTuningOptions {
  source : option string;
  executable : string;
  compile_command : string;
  use_heuristic : bool;
  search_method : string;
  repetitions : Z;
  time_regexp : string → option string;
  num_gangs_min : Z;
  num_gangs_max : Z;
  vector_length_min : Z;
  vector_length_max : Z;
  verbose : bool;
  ignore_exit : bool;
  kernel_timing : bool
}.

Definition PGCC_COMPILE : string :=
  "pgcc -acc -DNUM_GANGS={num_gangs} -DVECTOR_LENGTH={vector_length} {source}".
Definition PGCC_COMPILE_KERNEL_TIMING : string :=
  "pgcc -acc -DNUM_GANGS={num_gangs} -DVECTOR_LENGTH={vector_length} -ta=nvidia,time {source}".

(** [TuningOptions.__init__]: the compile command is the given one, else the
    default for the timing mode.  An empty command string is falsy. *)
Definition TuningOptions_init
    (source : option string) (executable : string)
    (compile_command : option string) (search_method : string)
    (use_heuristic : bool) (repetitions : Z)
    (time_regexp : string → option string)
    (num_gangs_min num_gangs_max vector_length_min vector_length_max : Z)
    (verbose ignore_exit kernel_timing : bool) : TuningOptions :=
  let command :=
    match compile_command with
    | Some c => if decide (c = "") then
                  (if kernel_timing then PGCC_COMPILE_KERNEL_TIMING else PGCC_COMPILE)
                else c
    | None => if kernel_timing then PGCC_COMPILE_KERNEL_TIMING else PGCC_COMPILE
    end in
  mkTuningOptions source executable command use_heuristic search_method
    repetitions time_regexp num_gangs_min num_gangs_max vector_length_min
    vector_length_max verbose ignore_exit kernel_timing.

(** What the program does to the outside, in the order it does it. *)
Inductive Event :=
| EvCall (command : string) (env : option (gmap string string))
    (* utilities.call_command(command, env=env) *)
| EvLogRun (x : Point) (time : Q)
    (* output_writer.log_run(x, time) *)
| EvAdd (result : TestResult).
    (* output_writer.add(result) *)

Definition is_call (e : Event) : bool :=
  match e with EvCall _ _ => true | _ => false end.

(** The number of processes run so far. *)
Definition invocations (tr : list Event) : nat :=
  length (List.filter is_call tr).

(** The raw timings reported so far, oldest first. *)
Fixpoint logged_timings (tr : list Event) : list Q :=
  match tr with
  | [] => []
  | EvLogRun _ t :: tr' => t :: logged_timings tr'
  | _ :: tr' => logged_timings tr'
  end.

(** The Results handed to the sink so far, oldest first. *)
Fixpoint sink_results (tr : list Event) : list TestResult :=
  match tr with
  | [] => []
  | EvAdd r :: tr' => r :: sink_results tr'
  | _ :: tr' => sink_results tr'
  end.

(** The platform the tuner runs on: the process environment, the behaviour of
    the external commands and the library functions the code calls.
    [call_command_result n command env] is what the [n]-th process run (counted
    from 0) prints and the code it exits with; any sequence of behaviours of
    the compiler and of the executable is some such function. *)
Record World := mkWorld {
  os_environ : gmap string string;
  call_command_result : nat → string → option (gmap string string) → string * Z;
  (* [template.format(source=.., num_gangs=.., vector_length=..)] *)
  str_format : string → option string → Z → Z → outcome string;
  (* [KERNEL_TIMING_RE.search(output)], group 1 *)
  KERNEL_TIMING_RE_search : string → option string;
  (* [float(text)]; [None] stands for ValueError *)
  float_of_string : string → option Q;
  (* [a + b], [a - b], [a * b] and [a / b] on floats, for a divisor other
     than 0: the binary64 result *)
  float_add : Q → Q → Q;
  float_sub : Q → Q → Q;
  float_mul : Q → Q → Q;
  float_div : Q → Q → Q;
  (* [a ** k] on a float and an integer; raises OverflowError when the result
     is out of the range of the floats *)
  float_pow : Q → Z → outcome Q;
  (* [math.sqrt(a)] for an argument that is not negative *)
  math_sqrt : Q → Q;
  (* [str(point)] *)
  Point_str : Point → string;
  (* [stats.is_diff_significant(avg1, stdev1, n1, avg2, stdev2, n2)] *)
  is_diff_significant :
    option Q → option Q → Z → option Q → option Q → Z → outcome bool
}.

(** ** The state-and-exception monad *)

Record State := mkState {
  st_opts : TuningOptions;
  st_trace : list Event
}.

Definition M (A : Type) : Type := State → outcome A * State.

Definition ret {A} (a : A) : M A := λ s, (Ok a, s).

Definition bind {A B} (m : M A) (k : A → M B) : M B :=
  λ s, match m s with
       | (Ok a, s') => k a s'
       | (Raise e, s') => (Raise e, s')
       end.

Definition lift {A} (o : outcome A) : M A := λ s, (o, s).

Definition get_opts : M TuningOptions := λ s, (Ok (st_opts s), s).

Definition set_opts (o : TuningOptions) : M unit :=
  λ s, (Ok tt, mkState o (st_trace s)).

Definition emit (e : Event) : M unit :=
  λ s, (Ok tt, mkState (st_opts s) (st_trace s ++ [e])).

Declare Scope tuner_scope.
Delimit Scope tuner_scope with tuner.
Notation "'let*' x ':=' m 'in' k" := (bind m (λ x, k))
  (at level 10, x name, m at level 200, k at level 200) : tuner_scope.
Notation "'let*' ' p ':=' m 'in' k" := (bind m (λ x, match x with p => k end))
  (at level 10, p pattern, m at level 200, k at level 200) : tuner_scope.
Notation "'run' m 'then' k" := (bind m (λ _, k))
  (at level 10, m at level 200, k at level 200) : tuner_scope.
Local Open Scope tuner_scope.

(** [output_writer.add(result)] and [output_writer.log_run(x, time)] *)
Definition output_writer_add (r : TestResult) : M unit := emit (EvAdd r).
Definition output_writer_log_run (x : Point) (t : Q) : M unit := emit (EvLogRun x t).

(** [d.update(other)]: the entries of [other] replace those of [d]. *)
Definition dict_update {V} (d other : gmap string V) : gmap string V := other ∪ d.

(** [text.replace(',', '')] *)
Fixpoint remove_commas (s : string) : string :=
  match s with
  | EmptyString => EmptyString
  | String c s' =>
      if decide (c = ","%char) then remove_commas s' else String c (remove_commas s')
  end.

Section Harness.
Context (W : World).

(** [utilities.call_command]: runs the command, waits for it, and gives back
    its output and exit code. *)
Definition call_command (command : string) (env : option (gmap string string))
  : M (string * Z) :=
  λ s, (Ok (call_command_result W (invocations (st_trace s)) command env),
        mkState (st_opts s) (st_trace s ++ [EvCall command env])).

(** ** Live mode: [gen_tuning_function] *)

(** The environment the compile command runs in (lines 107-115). *)
Definition compile_env (num_gangs vector_length : Z) : gmap string string :=
  let env : gmap string string :=
    {[ "NUM_GANGS" := pretty num_gangs;
       "VECTOR_LENGTH" := pretty vector_length ]} in
  dict_update env (os_environ W).

(** The float that the literal [1e-6] denotes: the binary64 number nearest to
    a millionth. *)
Definition micro : Q := 4722366482869645 # 4722366482869645213696.

(** Lines 144-170: the timing of one run, or the error Result that ends the
    loop; [float] of a text that is no number raises ValueError. *)
Definition read_time (opts : TuningOptions) (x : Point) (output : string)
  : outcome (TestResult + Q) :=
  if kernel_timing opts then
    match KERNEL_TIMING_RE_search W output with
    | None => Ok (inl (TestResult_error x "PGI kernel timing data missing"))
    | Some g =>
        match float_of_string W (remove_commas g) with
        | None => Raise ValueError
        | Some f => Ok (inr (float_mul W f micro))
        end
    end
  else
    match time_regexp opts output with
    | None => Ok (inl (TestResult_error x "Timing data missing"))
    | Some g =>
        match float_of_string W g with
        | None => Raise ValueError
        | Some f => Ok (inr f)
        end
    end.

(** Lines 134-173: the repetition loop.  It gives back the variables [result]
    and [results] as they are when the loop is left. *)
Fixpoint repetitions_loop (opts : TuningOptions) (x : Point) (reps : nat)
    (results : list Q) : M (option TestResult * list Q) :=
  match reps with
  | O => ret (None, results)
  | S reps' =>
      let* '(output, return_code) := call_command (executable opts) None in
      if negb (return_code =? 0) && negb (ignore_exit opts) then
        ret (Some (TestResult_error x "Executable failed"), results)
      else
        let* t := lift (read_time opts x output) in
        match t with
        | inl err => ret (Some err, results)
        | inr time =>
            run output_writer_log_run x time then
            repetitions_loop opts x reps' (results ++ [time])
        end
  end.

(** [sum(values)] of floats: the additions are done from the left, starting
    from 0. *)
Definition fsum (values : list Q) : Q := fold_left (float_add W) values 0%Q.

(** Line 180: [sum(results) / n].  The count [n] of a list is far below 2^53
    and is the same number as a float. *)
Definition mean (results : list Q) : Q :=
  float_div W (fsum results) (inject_Z (Z.of_nat (length results))).

(** The values [(x - avg)**2 for x in results] (line 185), in order. *)
Fixpoint squared_distances (avg : Q) (results : list Q) : outcome (list Q) :=
  match results with
  | [] => Ok []
  | x :: results' =>
      match float_pow W (float_sub W x avg) 2 with
      | Raise e => Raise e
      | Ok d =>
          match squared_distances avg results' with
          | Raise e => Raise e
          | Ok ds => Ok (d :: ds)
          end
      end
  end.

(** Lines 181-185.  [math.sqrt] raises ValueError for a negative argument. *)
Definition sample_stdev (results : list Q) : outcome Q :=
  let n := length results in
  let avg := mean results in
  if decide (n = 1%nat) then Ok 0%Q
  else
    match squared_distances avg results with
    | Raise e => Raise e
    | Ok squares =>
        let radicand := float_div W (fsum squares) (inject_Z (Z.of_nat n - 1)) in
        if Qle_bool 0 radicand then Ok (math_sqrt W radicand)
        else Raise ValueError
    end.

(** Lines 175-188 *)
Definition aggregate (x : Point) (result : option TestResult) (results : list Q)
  : outcome TestResult :=
  match result with
  | Some r => Ok r
  | None =>
      match results with
      | [] => Ok (TestResult_error x "No points tested")
      | _ =>
          match sample_stdev results with
          | Raise e => Raise e
          | Ok stdev => Ok (TestResult_ok x (mean results) stdev)
          end
      end
  end.

(** The function [fn] that [gen_tuning_function] gives back. *)
Definition tuning_fn (x : Point) (repetitions : Z) : M TestResult :=
  let* opts := get_opts in
  let '(num_gangs, vector_length) := x in
  let* command := lift (str_format W (compile_command opts) (source opts)
                        num_gangs vector_length) in
  let env := compile_env num_gangs vector_length in
  let* '(output, return_code) := call_command command (Some env) in
  if negb (return_code =? 0) then
    let result := TestResult_error x "Compile command failed" in
    run output_writer_add result then
    ret result
  else
    let* '(result, results) := repetitions_loop opts x (Z.to_nat repetitions) [] in
    let* result := lift (aggregate x result results) in
    run output_writer_add result then
    ret result.

End Harness.

(** ** Replay mode: [load_testing_data] and [gen_testing_function] *)

(** The value [csv_data] holds for a point: the dict with the keys
    ['time'], ['stdev'] and ['error msg']. *)
Record Values := mkValues {
  row_time : Q;
  row_stdev : Q;
  row_error_msg : option string
}.

Definition outcome_bind {A B} (o : outcome A) (k : A → outcome B) : outcome B :=
  match o with
  | Ok a => k a
  | Raise e => Raise e
  end.

Notation "'let?' x ':=' o 'in' k" := (outcome_bind o (λ x, k))
  (at level 10, x name, o at level 200, k at level 200) : tuner_scope.

(** [int(round(q))] on a float: Python 2 rounds halves away from zero and
    [int] cuts the fraction off. *)
Definition py_round (q : Q) : Q :=
  inject_Z (if Qle_bool 0 q then Qfloor (q + (1 # 2)) else Qceiling (q - (1 # 2))).

Definition py_int (q : Q) : Z := Z.quot (Qnum q) (Z.pos (Qden q)).

(** The order of [sorted(csv_data, key=lambda x: csv_data[x]['time'])] *)
Definition time_le (a b : Point * Values) : Prop :=
  Qle_bool (row_time a.2) (row_time b.2) = true.

#[global] Instance time_le_dec : RelDecision time_le.
Proof. intros a b. unfold time_le. apply _. Defined.

Section Replay.
Context (W : World).

(** Modelled from the spec: [int(text)], as the constructor of the absent class
    [Point] applies it to the two fields of a row so that the keys of
    [csv_data] are the integer points the search asks for.  [None] stands for
    ValueError. *)
Variable int_of_string : string → option Z.

(** [row[column]] on a row of [csv.DictReader]: a column that the header
    lacks raises KeyError; a column that a short row lacks holds [None]. *)
Definition row_field (row : gmap string (option string)) (column : string)
  : outcome (option string) :=
  match row !! column with
  | Some v => Ok v
  | None => Raise (KeyError column)
  end.

Definition to_float (v : option string) : outcome Q :=
  match v with
  | None => Raise TypeError
  | Some text =>
      match float_of_string W text with
      | Some q => Ok q
      | None => Raise ValueError
      end
  end.

Definition to_int (v : option string) : outcome Z :=
  match v with
  | None => Raise TypeError
  | Some text =>
      match int_of_string text with
      | Some z => Ok z
      | None => Raise ValueError
      end
  end.

(** Lines 204-207: the key and the values of one row. *)
Definition read_row (row : gmap string (option string)) : outcome (Point * Values) :=
  let? g := row_field row "num_gangs" in
  let? v := row_field row "vector_length" in
  let? num_gangs := to_int g in
  let? vector_length := to_int v in
  let? t := row_field row "time" in
  let? time := to_float t in
  let? sd := row_field row "stdev" in
  let? stdev := to_float sd in
  let? msg := row_field row "error msg" in
  Ok ((num_gangs, vector_length), mkValues time stdev msg).

(** Lines 203-208: a later row for the same point replaces the earlier one. *)
Fixpoint read_rows (rows : list (gmap string (option string)))
    (csv_data : gmap Point Values) : outcome (gmap Point Values) :=
  match rows with
  | [] => Ok csv_data
  | row :: rows' =>
      let? kv := read_row row in
      read_rows rows' (<[kv.1 := kv.2]> csv_data)
  end.

(** Lines 209-215: a missing column or an unreadable number ends the process. *)
Definition exit_on_bad_file {A} (o : outcome A) : outcome A :=
  match o with
  | Raise (KeyError _) => Raise (SystemExit 1)
  | Raise ValueError => Raise (SystemExit 1)
  | _ => o
  end.


(** Line 219: the points in ascending order of their time.  The order in
    which a Python 2 dict lists its keys, and so the order among points of
    equal time, is not fixed; here it is the order of [map_to_list]. *)
Definition sorted_points (csv_data : gmap Point Values) : list Point :=
  (merge_sort time_le (map_to_list csv_data)).*1.

(** Lines 234-239: the loop of [percentile]; [csv_data[k]] raises KeyError
    for a point that the dataset lacks. *)
Fixpoint percentile_count (csv_data : gmap Point Values) (sdata : list Point)
    (time : Q) (count : Z) : outcome Z :=
  match sdata with
  | [] => Ok count
  | k :: sdata' =>
      match csv_data !! k with
      | None => Raise (KeyError (Point_str W k))
      | Some v =>
          if Qle_bool (row_time v) time
          then percentile_count csv_data sdata' time (count + 1)
          else Ok count
      end
  end.

(** Lines 232-240.  The share [float(count) / n * 100] is written over the
    rationals.  The code rounds the quotient and the product to binary64,
    which can move a share that lies next to a half across it; what is proved
    of the percentile below (its order in the mean, its range, its two
    extremes and that it is less than 1 away from the share) holds of the
    rounded share as well, since the rounding keeps the order and the whole
    numbers 0, 1 and 100 and moves the share by far less than a half. *)
Definition percentile (csv_data : gmap Point Values) (sdata : list Point)
    (time : Q) : outcome Z :=
  let n := Z.of_nat (length sdata) in
  let? count := percentile_count csv_data sdata time 0 in
  if n =? 0 then Raise ZeroDivisionError
  else Ok (py_int (py_round (inject_Z count / inject_Z n * 100)%Q)).

(** [load_testing_data], from the rows of the file: the dataset, the best
    Result known and the list [sdata] that [percentile] closes over. *)
Definition load_testing_data (rows : list (gmap string (option string)))
  : outcome (gmap Point Values * TestResult * list Point) :=
  let? csv_data := exit_on_bad_file (read_rows rows ∅) in
  let sdata := sorted_points csv_data in
  match sdata with
  | [] => Raise IndexError
  | best :: _ =>
      match csv_data !! best with
      | None => Raise (KeyError (Point_str W best))
      | Some v =>
          Ok (csv_data,
              mkTestResult best (Some (row_time v)) (Some (row_stdev v))
                (row_error_msg v),
              sdata)
      end
  end.

(** The function [fn] that [gen_testing_function] gives back (lines 249-270). *)
Definition testing_fn (csv_data : gmap Point Values) (x : Point) (repetitions : Z)
  : M TestResult :=
  let result :=
    match csv_data !! x with
    | None => TestResult_error x (Point_str W x +:+ " not in CSV data")
    | Some v =>
        match row_error_msg v with
        | Some msg => TestResult_error x msg
        | None => TestResult_ok x (row_time v) (row_stdev v)
        end
    end in
  run output_writer_add result then
  ret result.

End Replay.

(** ** [tune]: the objective function and the heuristic *)

Section Tune.
Context (W : World).

(** The two ways [tune] builds [run_test] (lines 302-305). *)
Inductive Mode :=
| Live
| Replay (csv_data : gmap Point Values).

Definition run_test (mode : Mode) : Point → Z → M TestResult :=
  match mode with
  | Live => tuning_fn W
  | Replay csv_data => testing_fn W csv_data
  end.

(** Lines 307-315.  [opts] is the object that [run_heuristic] may change, so
    the bounds are read when the objective is called. *)
Definition objective (run_test : Point → Z → M TestResult) (x : Point)
  : M TestResult :=
  let* opts := get_opts in
  let out_of_range := TestResult_error x "Point out of range" in
  if (x.1 <? num_gangs_min opts) || (x.1 >? num_gangs_max opts) then
    ret out_of_range
  else if (x.2 <? vector_length_min opts) || (x.2 >? vector_length_max opts) then
    ret out_of_range
  else
    run_test x (repetitions opts).

(** [r.stdev == 0]; [None == 0] is false. *)
Definition stdev_is_zero (r : TestResult) : bool :=
  match stdev r with
  | Some sd => Qeq_bool sd 0
  | None => false
  end.

Definition set_num_gangs_bounds (v : Z) (o : TuningOptions) : TuningOptions :=
  mkTuningOptions (source o) (executable o) (compile_command o)
    (use_heuristic o) (search_method o) (repetitions o) (time_regexp o)
    v v (vector_length_min o) (vector_length_max o)
    (verbose o) (ignore_exit o) (kernel_timing o).

Definition set_vector_length_bounds (v : Z) (o : TuningOptions) : TuningOptions :=
  mkTuningOptions (source o) (executable o) (compile_command o)
    (use_heuristic o) (search_method o) (repetitions o) (time_regexp o)
    (num_gangs_min o) (num_gangs_max o) v v
    (verbose o) (ignore_exit o) (kernel_timing o).

(** Lines 276-298 *)
Definition run_heuristic (objective : Point → M TestResult) : M (bool * bool) :=
  let* i := objective (256, 128) in
  let* g := objective (1024, 128) in
  let* v := objective (256, 1024) in
  let* opts := get_opts in
  let n := repetitions opts in
  if (n =? 1) || stdev_is_zero i || stdev_is_zero g || stdev_is_zero v then
    ret (true, true)
  else
    let* tune_num_gangs :=
      lift (is_diff_significant W (average i) (stdev i) n (average g) (stdev g) n) in
    let* tune_vector_length :=
      lift (is_diff_significant W (average i) (stdev i) n (average v) (stdev v) n) in
    run (if negb tune_num_gangs then
           let* o := get_opts in set_opts (set_num_gangs_bounds (point i).1 o)
         else ret tt) then
    run (if negb tune_vector_length then
           let* o := get_opts in set_opts (set_vector_length_bounds (point i).2 o)
         else ret tt) then
    ret (tune_num_gangs, tune_vector_length).

End Tune.

(** ** [methods/RSM.py]: the points of the grid *)

(** [range(a, b)] *)
Definition py_range (a b : Z) : list Z := seqZ a (b - a).

(** [int(math.ceil(a / float(mul)))], written over the rationals.  The code
    divides in binary64.  For [a] and [mul] of magnitude below 2^53 both are
    floats as they stand, and the rounded quotient has the ceiling of the
    exact one: a quotient that is not whole lies at least [1 / |mul|] above
    the whole number below it, which is more than half the distance between
    neighbouring floats of its size.  From 2^53 on the conversion to float
    can lose the last bits of [a]; the properties of the grid are stated for
    bounds and steps below 2^53. *)
Definition ceil_quotient (a mul : Z) : Z := Qceiling (inject_Z a / inject_Z mul)%Q.

(** The generator of [_tune_RSM] (lines 41-52), as the list of the points it
    yields; both quotients divide by [mul].  The integer quotient of Python 2
    rounds down. *)
Definition generator (opts : TuningOptions) (mul : Z) : outcome (list Point) :=
  if mul =? 0 then Raise ZeroDivisionError
  else
    let gmin := ceil_quotient (num_gangs_min opts) mul in
    let gmax := num_gangs_max opts / mul in
    let vmin := ceil_quotient (vector_length_min opts) mul in
    let vmax := vector_length_max opts / mul in
    Ok (gang_mult ← py_range gmin (gmax + 1);
        vec_mult ← py_range vmin (vmax + 1);
        [(Z.max (mul * gang_mult) 1, Z.max (mul * vec_mult) 1)]).

(** ** Reading a run off the states before and after it *)

(** The events a computation added to the trace, given the states before and
    after it. *)
Definition events_since (s s' : State) : list Event :=
  drop (length (st_trace s)) (st_trace s').

(** A point the bound check of [objective] rejects. *)
Definition out_of_bounds (opts : TuningOptions) (x : Point) : Prop :=
  x.1 < num_gangs_min opts ∨ x.1 > num_gangs_max opts ∨
  x.2 < vector_length_min opts ∨ x.2 > vector_length_max opts.

Definition in_bounds (opts : TuningOptions) (x : Point) : Prop :=
  num_gangs_min opts ≤ x.1 ≤ num_gangs_max opts ∧
  vector_length_min opts ≤ x.2 ≤ vector_length_max opts.

(** The Results with which [fn] of [gen_tuning_function] records a failure of
    the compiler or of a run. *)
Definition records_failure (x : Point) (r : TestResult) : Prop :=
  r = TestResult_error x "Compile command failed" ∨
  r = TestResult_error x "Executable failed" ∨
  r = TestResult_error x "PGI kernel timing data missing" ∨
  r = TestResult_error x "Timing data missing".

(** ** A concrete platform, for the examples *)

Module Demo.

(** Reads a text of decimal digits. *)
Fixpoint digits_value (text : string) (acc : Z) : option Z :=
  match text with
  | EmptyString => Some acc
  | String c text' =>
      let d := Z.of_nat (nat_of_ascii c) - 48 in
      if (0 <=? d) && (d <=? 9) then digits_value text' (10 * acc + d) else None
  end.

Definition int_of_string (text : string) : option Z :=
  match text with
  | EmptyString => None
  | _ => digits_value text 0
  end.

Definition float_of_string (text : string) : option Q :=
  inject_Z <$> int_of_string text.

(** The search of the pattern [time=(\d+)] on an output that starts with it. *)
Definition time_search (output : string) : option string :=
  match output with
  | String "t" (String "i" (String "m" (String "e" (String "=" rest)))) => Some rest
  | _ => None
  end.

(** A square root that is exact on the squares of integers. *)
Definition sqrt (q : Q) : Q := inject_Z (Z.sqrt (Qfloor q)).

(** [a ** k] without rounding and without a largest float. *)
Definition pow (a : Q) (k : Z) : outcome Q := Ok (a ^ k)%Q.

Definition point_str (x : Point) : string :=
  "(" +:+ pretty x.1 +:+ ", " +:+ pretty x.2 +:+ ")".

(** A platform with the process environment [environ] on which the [n]-th
    process run behaves as [responses n] says.  A command template without
    placeholders renders to itself.  Its arithmetic does not round; on the
    small whole numbers of the examples binary64 computes the same values. *)
Definition world (environ : gmap string string) (responses : nat → string * Z)
  : World :=
  mkWorld environ (λ n _ _, responses n) (λ template _ _ _, Ok template)
    time_search float_of_string Qplus Qminus Qmult Qdiv pow sqrt point_str
    (λ avg1 _ _ avg2 _ _,
       match avg1, avg2 with
       | Some a, Some b => Ok (negb (Qeq_bool a b))
       | _, _ => Raise TypeError
       end).

(** Options for a program built by [make] and timed over [reps] runs, with
    the default bounds. *)
Definition options (reps : Z) : TuningOptions :=
  TuningOptions_init None "./a.out" (Some "make") "nelder-mead" false reps
    time_search 2 1024 2 1024 false false false.

Definition start (reps : Z) : State := mkState (options reps) [].

(** The compiler succeeds and every run prints the time 3. *)
Definition steady (n : nat) : string * Z := ("time=3", 0).

(** The compiler succeeds, the first run prints a time, the second crashes. *)
Definition crash_on_second (n : nat) : string * Z :=
  match n with
  | 0%nat => ("", 0)
  | 1%nat => ("time=3", 0)
  | 2%nat => ("Segmentation fault", 139)
  | _ => ("time=4", 0)
  end.

(** The compiler exits with 1. *)
Definition compiler_fails (n : nat) : string * Z := ("syntax error", 1).

(** The compiler succeeds and the runs print 3, 5 and 7. *)
Definition three_runs (n : nat) : string * Z :=
  match n with
  | 0%nat => ("", 0)
  | 1%nat => ("time=3", 0)
  | 2%nat => ("time=5", 0)
  | _ => ("time=7", 0)
  end.

End Demo.

(** The reading of "the harness never evaluates the same Point twice": asked
    again for the point [x], the objective function gives the Result it gave
    before and runs no process. *)
Definition answered_from_cache (W : World) (mode : Mode) (x : Point) (s : State)
  : Prop :=
  ∀ o1 s1 o2 s2,
    objective (run_test W mode) x s = (o1, s1) →
    objective (run_test W mode) x s1 = (o2, s2) →
    o2 = o1 ∧ invocations (st_trace s2) = invocations (st_trace s1).

(** The reading of C5: a point the dataset lacks gives the not-in-dataset
    error; a point recorded with an error gives that error; a point whose
    error message is empty or absent gives the recorded mean and deviation. *)
Definition replay_as_claimed (W : World) (csv_data : gmap Point Values)
    (x : Point) (r : TestResult) : Prop :=
  match csv_data !! x with
  | None => r = TestResult_error x (Point_str W x +:+ " not in CSV data")
  | Some v =>
      match row_error_msg v with
      | Some (String c msg) => r = TestResult_error x (String c msg)
      | Some EmptyString | None => r = TestResult_ok x (row_time v) (row_stdev v)
      end
  end.

(** A standard deviation that is exactly 0. *)
Definition has_zero_stdev (r : TestResult) : Prop :=
  ∃ sd, stdev r = Some sd ∧ (sd == 0)%Q.

Module DemoData.

(** A file with one successful row, written with an empty error message. *)
Definition success_row : gmap string (option string) :=
  {[ "num_gangs" := Some "256"; "vector_length" := Some "128";
     "time" := Some "3"; "stdev" := Some "1"; "error msg" := Some "" ]}.

(** The same row cut short after the deviation: the last field is absent. *)
Definition short_row : gmap string (option string) :=
  {[ "num_gangs" := Some "512"; "vector_length" := Some "128";
     "time" := Some "4"; "stdev" := Some "1"; "error msg" := None ]}.

Definition failed_row : gmap string (option string) :=
  {[ "num_gangs" := Some "1024"; "vector_length" := Some "128";
     "time" := Some "0"; "stdev" := Some "0";
     "error msg" := Some "Executable failed" ]}.

Definition rows : list (gmap string (option string)) :=
  [success_row; short_row; failed_row].

End DemoData.

(** The least integer that is not below the quotient a/g, over the integers. *)
Definition ceil_div (a g : Z) : Z := - ((- a) / g).

(** The point of the grid with the multiples [ij]. *)
Definition grid_point (g : Z) (ij : Z * Z) : Point :=
  (Z.max (g * ij.1) 1, Z.max (g * ij.2) 1).

(** The reading of C8: of two means, the smaller never has a percentile that
    is smaller than or equal to the percentile of the larger. *)
Definition percentile_as_claimed (W : World) (csv_data : gmap Point Values)
    (sdata : list Point) : Prop :=
  ∀ m1 m2 p1 p2,
    (m1 < m2)%Q →
    percentile W csv_data sdata m1 = Ok p1 →
    percentile W csv_data sdata m2 = Ok p2 →
    ¬ (p1 ≤ p2).

(** What the float arithmetic of a platform does to signs: a sum and a
    quotient of numbers that are not negative (the divisor positive) are not
    negative, a square is not negative, and the power raises nothing but
    OverflowError.  Correctly rounded binary64 arithmetic is of this kind. *)
Definition keeps_sign (W : World) : Prop :=
  (∀ a b, (0 <= a)%Q → (0 <= b)%Q → (0 <= float_add W a b)%Q) ∧
  (∀ a b, (0 <= a)%Q → (0 < b)%Q → (0 <= float_div W a b)%Q) ∧
  (∀ a d, float_pow W a 2 = Ok d → (0 <= d)%Q) ∧
  (∀ a e, float_pow W a 2 = Raise e → e = OverflowError).

(** The events of runs of the executable that succeed one after the other
    with the timings [ts]: each run is followed by the report of its timing. *)
Definition successful_runs (opts : TuningOptions) (x : Point) (ts : list Q)
  : list Event :=
  flat_map (λ t, [EvCall (executable opts) None; EvLogRun x t]) ts.

(** ** The rest of [tuner.py]: [tune] up to the search, and [main] *)

(** The index pairs of the grid of [_tune_RSM], gang multiples outermost. *)
Definition grid_pairs (opts : TuningOptions) (g : Z) : list (Z * Z) :=
  i ← py_range (ceil_div (num_gangs_min opts) g) (num_gangs_max opts / g + 1);
  j ← py_range (ceil_div (vector_length_min opts) g) (vector_length_max opts / g + 1);
  [(i, j)].

(** The dataset entries whose time is at most [time]. *)
Definition entries_up_to (csv_data : gmap Point Values) (time : Q)
  : list (Point * Values) :=
  filter (λ kv, Qle_bool (row_time kv.2) time = true) (map_to_list csv_data).

(** The entries of the dataset in the order of [sorted_points]. *)
Definition sorted_entries (csv_data : gmap Point Values) : list (Point * Values) :=
  merge_sort time_le (map_to_list csv_data).

(** Modelled from the spec: the class [SearchResult] of module [searchresult],
    which is not among the sources: the Results of all points tested, the
    point chosen and the iteration count. *)
Record SearchResult := mkSearchResult {
  tests : gmap Point TestResult;
  optimal : Point;
  num_iterations : Z
}.

(** What can end [tune] or [main] before a search result exists: the
    RuntimeError of [tune], a file that cannot be opened, a pattern that
    [re.compile] refuses, or one of the exceptions of [exn] passing through
    ([sys.exit(1)] raises [SystemExit 1]). *)
Inductive failure :=
| RuntimeError (msg : string)
| IOError
| re_error
| Uncaught (e : exn).

(** [text.endswith(suffix)] *)
Definition str_endswith (text suffix : string) : bool :=
  let n := String.length text in
  let k := String.length suffix in
  (k <=? n)%nat && bool_decide (String.substring (n - k) k text = suffix).

Definition double_quote : string := String (ascii_of_nat 34) EmptyString.

Section TuneSearch.
Context (W : World).

(** Modelled from the spec: [int(text)] for the fields of a row, as in
    [read_row]. *)
Variable int_of_string : string → option Z.

(** The rows [csv.DictReader] reads from the file of a name; [None] when the
    file cannot be opened. *)
Variable csv_rows : string → option (list (gmap string (option string))).

(** The dict [METHODS]: the search strategies by name.  The modules of the
    strategies are not among the sources; a strategy is any computation that
    is given the objective function (it reads the options from the state). *)
Variable METHODS : gmap string ((Point → M TestResult) → M SearchResult).

(** Lines 301-305: replay mode for a source whose name ends in [.csv]. *)
Definition select_mode (opts : TuningOptions) : failure + Mode :=
  match source opts with
  | Some src =>
      if str_endswith src ".csv" then
        match csv_rows src with
        | None => inl IOError
        | Some rows =>
            match load_testing_data W int_of_string rows with
            | Ok (csv_data, _, _) => inr (Replay csv_data)
            | Raise e => inl (Uncaught e)
            end
        end
      else inr Live
  | None => inr Live
  end.

(** Lines 301-324 of [tune]: the mode, the check of the search method, the
    heuristic when asked for, and the search.  The report that follows
    (lines 326-349) is not part of this definition. *)
Definition tune_search (s : State) : (failure + SearchResult) * State :=
  let opts := st_opts s in
  match select_mode opts with
  | inl f => (inl f, s)
  | inr mode =>
      let objective := objective (run_test W mode) in
      match METHODS !! search_method opts with
      | None =>
          (inl (RuntimeError ("Unknown search method " +:+ double_quote +:+
                              search_method opts +:+ double_quote)), s)
      | Some method =>
          let heuristic : M unit :=
            if use_heuristic opts then
              run run_heuristic W objective then ret tt
            else ret tt in
          match heuristic s with
          | (Raise e, s1) => (inl (Uncaught e), s1)
          | (Ok _, s1) =>
              match method objective s1 with
              | (Ok res, s2) => (inr res, s2)
              | (Raise e, s2) => (inl (Uncaught e), s2)
              end
          end
      end
  end.

End TuneSearch.

(** The command line as [argparse] hands it to [main]: an option that was not
    given is [None], a flag that was not given is [False].  The arguments for
    the log file and the output files take no part in what is modelled and
    are left out. *)
Record Args := mkArgs {
  arg_source : option string;
  arg_executable : option string;
  arg_compile_command : option string;
  arg_use_heuristic : bool;
  arg_search_method : option string;
  arg_repetitions : option Z;
  arg_time_regexp : option string;
  arg_kernel_timing : bool;
  arg_num_gangs_min : option Z;
  arg_num_gangs_max : option Z;
  arg_vector_length_min : option Z;
  arg_vector_length_max : option Z;
  arg_verbose : bool;
  arg_ignore_exit : bool
}.

Definition TIME_RE : string := "(?:time)[=:\s]*([\d.]+)".

(** [not text] for an optional text: [None] and the empty text are falsy. *)
Definition py_not (o : option string) : bool :=
  match o with
  | None => true
  | Some text => bool_decide (text = "")
  end.

(** [v is not None and v <= 0] *)
Definition given_not_positive (o : option Z) : bool :=
  match o with
  | None => false
  | Some v => v <=? 0
  end.

(** Lines 387-409 of [main]: the checks of the arguments and the options built
    from them; an argument that is [None] leaves the default of
    [TuningOptions.__init__] in place.  [re_compile pattern] is
    [re.compile(pattern, re.I)], as its search. *)
Definition main_options
    (re_compile : string → failure + (string → option string)) (args : Args)
  : failure + TuningOptions :=
  if py_not (arg_source args) && py_not (arg_compile_command args) then
    inl (Uncaught (SystemExit 1))
  else if given_not_positive (arg_num_gangs_min args)
          || given_not_positive (arg_vector_length_min args) then
    inl (Uncaught (SystemExit 1))
  else if given_not_positive (arg_repetitions args) then
    inl (Uncaught (SystemExit 1))
  else
    match re_compile (default TIME_RE (arg_time_regexp args)) with
    | inl f => inl f
    | inr search =>
        inr (TuningOptions_init
               (arg_source args)
               (default "./a.out" (arg_executable args))
               (arg_compile_command args)
               (default "nelder-mead" (arg_search_method args))
               (arg_use_heuristic args)
               (default 10 (arg_repetitions args))
               search
               (default 2 (arg_num_gangs_min args))
               (default 1024 (arg_num_gangs_max args))
               (default 2 (arg_vector_length_min args))
               (default 1024 (arg_vector_length_max args))
               (arg_verbose args) (arg_ignore_exit args)
               (arg_kernel_timing args))
    end.

(** [tune_RSM]: the grid of step 32. *)
Definition tune_RSM_points (opts : TuningOptions) : outcome (list Point) :=
  generator opts 32.

Module DemoSearch.

(** A strategy that evaluates the point (256, 128) and reports it. *)
Definition single_point (objective : Point → M TestResult) : M SearchResult :=
  let* r := objective (256, 128) in
  ret (mkSearchResult {[ (256, 128) := r ]} (256, 128) 1).

Definition methods : gmap string ((Point → M TestResult) → M SearchResult) :=
  {[ "nelder-mead" := single_point ]}.

Definition no_files (name : string)
  : option (list (gmap string (option string))) := None.

Definition files (name : string)
  : option (list (gmap string (option string))) :=
  if bool_decide (name = "data.csv") then Some DemoData.rows else None.

Definition re_compile (pattern : string) : failure + (string → option string) :=
  inr Demo.time_search.

Definition args : Args :=
  mkArgs (Some "a.c") None None false None (Some 5) None false
    None None None None false false.

End DemoSearch.

Module DemoLive.

(** The options of [Demo.options] with ignore_exit on. *)
Definition options_ignore_exit (reps : Z) : TuningOptions :=
  TuningOptions_init None "./a.out" (Some "make") "nelder-mead" false reps
    Demo.time_search 2 1024 2 1024 false true false.

(** The compiler succeeds; every run prints a time and exits with 1. *)
Definition noisy_exit (n : nat) : string * Z :=
  match n with
  | 0%nat => ("", 0)
  | 1%nat => ("time=3", 1)
  | _ => ("time=5", 1)
  end.

(** The compiler succeeds, the first run prints a time, the second prints
    nothing the pattern matches. *)
Definition silent_second (n : nat) : string * Z :=
  match n with
  | 0%nat => ("", 0)
  | 1%nat => ("time=3", 0)
  | 2%nat => ("done", 0)
  | _ => ("time=4", 0)
  end.

(** The compiler succeeds, the first run prints a time, the second prints a
    text that the pattern matches and that is no number. *)
Definition garbled_second (n : nat) : string * Z :=
  match n with
  | 0%nat => ("", 0)
  | 1%nat => ("time=3", 0)
  | 2%nat => ("time=soon", 0)
  | _ => ("time=4", 0)
  end.

(** Every evaluation compiles and then runs twice, printing 3 and 5. *)
Definition three_and_five (n : nat) : string * Z :=
  match (n mod 3)%nat with
  | 0%nat => ("", 0)
  | 1%nat => ("time=3", 0)
  | _ => ("time=5", 0)
  end.

End DemoLive.

Module DemoFiles.

(** A file whose header lacks the column of the deviation. *)
Definition no_stdev_row : gmap string (option string) :=
  {[ "num_gangs" := Some "256"; "vector_length" := Some "128";
     "time" := Some "3"; "error msg" := Some "" ]}.

(** Two rows for the point (256, 128): first the time 3, then the time 9. *)
Definition first_row : gmap string (option string) :=
  {[ "num_gangs" := Some "256"; "vector_length" := Some "128";
     "time" := Some "3"; "stdev" := Some "1"; "error msg" := None ]}.

Definition second_row : gmap string (option string) :=
  {[ "num_gangs" := Some "256"; "vector_length" := Some "128";
     "time" := Some "9"; "stdev" := Some "2"; "error msg" := None ]}.

End DemoFiles.

(** * Properties *)

(** ** The model on small inputs *)

Example remove_commas_digits : remove_commas "1,234,567" = "1234567".
Proof. reflexivity. Qed.

Example py_round_half_up : py_int (py_round (5 # 2)) = 3.
Proof. reflexivity. Qed.

Example py_round_half_down : py_int (py_round (-5 # 2)) = -3.
Proof. reflexivity. Qed.

Example py_round_third : py_int (py_round (100 # 3)) = 33.
Proof. reflexivity. Qed.

Example ceil_quotient_small : ceil_quotient 2 256 = 1 ∧ ceil_quotient 512 256 = 2.
Proof. split; reflexivity. Qed.

Example py_range_empty : py_range 3 3 = [] ∧ py_range 5 2 = [].
Proof. split; reflexivity. Qed.

Example default_command_kernel_timing :
  compile_command
    (TuningOptions_init (Some "a.c") "./a.out" None "nelder-mead" false 10
       Demo.time_search 2 1024 2 1024 false false true)
  = PGCC_COMPILE_KERNEL_TIMING.
Proof. reflexivity. Qed.

(** A compiler that fails: the Result is 'Compile command failed', no run of
    the executable is attempted and no raw run is reported. *)
Example compile_failure_skips_runs :
  let W := Demo.world ∅ Demo.compiler_fails in
  let ran := tuning_fn W (256, 128) 5 (Demo.start 5) in
  ran.1 = Ok (TestResult_error (256, 128) "Compile command failed") ∧
  invocations (st_trace ran.2) = 1%nat ∧
  logged_timings (st_trace ran.2) = [] ∧
  sink_results (st_trace ran.2)
    = [TestResult_error (256, 128) "Compile command failed"].
Proof. vm_compute. repeat split; reflexivity. Qed.

(** Three runs with the timings 3, 5 and 7: the mean is 5 and the deviation,
    the root of (4 + 0 + 4) / 2, is 2. *)
Example three_timings_aggregate :
  let W := Demo.world ∅ Demo.three_runs in
  let ran := tuning_fn W (256, 128) 3 (Demo.start 3) in
  ∃ r, ran.1 = Ok r ∧ point r = (256, 128) ∧ error r = None ∧
       (∃ avg, average r = Some avg ∧ (avg == 5)%Q) ∧
       (∃ sd, stdev r = Some sd ∧ (sd == 2)%Q) ∧
       logged_timings (st_trace ran.2) = [3%Q; 5%Q; 7%Q].
Proof.
  eexists. split; [vm_compute; reflexivity|].
  repeat split; try reflexivity; eexists; split; reflexivity.
Qed.

(** ** The trace *)

Lemma invocations_app tr1 tr2 :
  invocations (tr1 ++ tr2) = (invocations tr1 + invocations tr2)%nat.
Proof. unfold invocations. by rewrite List.filter_app, length_app. Qed.

Lemma invocations_cons_call command env tr :
  invocations (EvCall command env :: tr) = S (invocations tr).
Proof. reflexivity. Qed.

Lemma logged_timings_app tr1 tr2 :
  logged_timings (tr1 ++ tr2) = logged_timings tr1 ++ logged_timings tr2.
Proof.
  induction tr1 as [|e tr1 IH]; [done|].
  destruct e; simpl; by rewrite IH.
Qed.

Lemma sink_results_app tr1 tr2 :
  sink_results (tr1 ++ tr2) = sink_results tr1 ++ sink_results tr2.
Proof.
  induction tr1 as [|e tr1 IH]; [done|].
  destruct e; simpl; by rewrite IH.
Qed.

Lemma events_since_app s s' new :
  st_trace s' = st_trace s ++ new → events_since s s' = new.
Proof. intros H. unfold events_since. rewrite H. apply drop_app_length. Qed.

(** ** The repetition loop *)

Section LoopFacts.
Context (W : World).

(** What the loop leaves behind, whatever the executable does: the options
    are untouched, the trace grows by runs of the executable and raw-run
    reports only, and the timings collected are exactly those reported. *)
Lemma repetitions_loop_spec opts x reps : ∀ results s o s',
  repetitions_loop W opts x reps results s = (o, s') →
  st_opts s' = st_opts s ∧
  ∃ new, st_trace s' = st_trace s ++ new ∧
    sink_results new = [] ∧
    ∀ res results', o = Ok (res, results') →
      results' = results ++ logged_timings new ∧
      match res with
      | None => length (logged_timings new) = reps
      | Some r =>
          r = TestResult_error x "Executable failed" ∨
          r = TestResult_error x "PGI kernel timing data missing" ∨
          r = TestResult_error x "Timing data missing"
      end.
Proof.
  induction reps as [|reps IH]; intros results s o s' Hrun; simpl in Hrun.
  - inversion Hrun; subst. split; [done|]. exists []. rewrite !app_nil_r.
    split; [done|]. split; [done|].
    intros res results' [= <- <-]. done.
  - unfold bind, call_command in Hrun; simpl in Hrun.
    destruct (call_command_result W _ _ _) as [output rc].
    destruct (negb (rc =? 0) && negb (ignore_exit opts)).
    + inversion Hrun; subst; simpl. split; [done|].
      eexists; split; [done|]. split; [done|].
      intros res results' [= <- <-]. simpl. rewrite ?app_nil_r. auto 6.
    + unfold lift in Hrun. destruct (read_time W opts x output) as [[err|t]|e] eqn:Ht.
      * inversion Hrun; subst; simpl. split; [done|].
        eexists; split; [done|]. split; [done|].
        intros res results' [= <- <-]. simpl. rewrite ?app_nil_r. split; [done|].
        unfold read_time in Ht.
        destruct (kernel_timing opts).
        -- destruct (KERNEL_TIMING_RE_search W output);
             [destruct (float_of_string W _); discriminate|].
           inversion Ht; subst. simpl. auto 6.
        -- destruct (time_regexp opts output);
             [destruct (float_of_string W _); discriminate|].
           inversion Ht; subst. simpl. auto 6.
      * unfold output_writer_log_run, emit in Hrun; simpl in Hrun.
        apply IH in Hrun as (Ho & new & Htr & Hsink & Hres); simpl in *.
        split; [done|]. rewrite <- !app_assoc in Htr.
        eexists; split; [exact Htr|]. split; [done|].
        intros res results' Heq. destruct (Hres _ _ Heq) as [-> Hr].
        simpl. rewrite <- app_assoc. split; [done|].
        destruct res; [done|]. by rewrite Hr.
      * inversion Hrun; subst; simpl. split; [done|].
        eexists; split; [done|]. split; [done|]. intros ? ? [=].
Qed.

End LoopFacts.

Section LiveFacts.
Context (W : World).

(** One call of the live evaluation function: the options are untouched; the
    trace grows; a call that returns has told the sink its Result, once, and
    that Result is a recorded failure, or 'No points tested' when no timing
    was reported, or else the mean and deviation of the reported timings,
    which were computed without an exception; a call that raises has told
    the sink nothing.  When the command template
    renders, the first thing done is to run the compile command. *)
Lemma tuning_fn_spec x reps s o s' :
  tuning_fn W x reps s = (o, s') →
  st_opts s' = st_opts s ∧
  ∃ new, st_trace s' = st_trace s ++ new ∧
    (∀ command,
       str_format W (compile_command (st_opts s)) (source (st_opts s)) x.1 x.2
         = Ok command →
       ∃ rest, new = EvCall command (Some (compile_env W x.1 x.2)) :: rest) ∧
    match o with
    | Ok r =>
        sink_results new = [r] ∧
        (records_failure x r ∨
         (logged_timings new = [] ∧ r = TestResult_error x "No points tested") ∨
         (logged_timings new ≠ [] ∧
          length (logged_timings new) = Z.to_nat reps ∧
          ∃ sd, sample_stdev W (logged_timings new) = Ok sd ∧
                r = TestResult_ok x (mean W (logged_timings new)) sd))
    | Raise _ => sink_results new = []
    end.
Proof.
  destruct x as [num_gangs vector_length].
  unfold tuning_fn, bind, get_opts, lift; simpl.
  destruct (str_format W _ _ _ _) as [command|e] eqn:Hfmt.
  2:{ intros [= <- <-]. split; [done|]. exists []. rewrite app_nil_r.
      split; [done|]. split; [intros ? [=]|done]. }
  unfold call_command; simpl.
  destruct (call_command_result W _ _ _) as [output rc].
  destruct (negb (rc =? 0)).
  - unfold output_writer_add, emit, ret; simpl. intros [= <- <-]; simpl.
    split; [done|]. rewrite <- app_assoc. eexists; split; [done|].
    split; [intros ? [= <-]; eauto|].
    simpl. split; [done|]. left. by left.
  - destruct (repetitions_loop W _ _ _ _ _) as [[[res results]|e] s1] eqn:Hloop;
      apply repetitions_loop_spec in Hloop as (Ho & new & Htr & Hsink & Hres);
      simpl in *.
    + destruct (Hres _ _ eq_refl) as [-> Hr]. simpl in *.
      destruct (aggregate W _ res (logged_timings new)) as [r|e] eqn:Hagg;
        unfold output_writer_add, emit, ret; simpl; intros [= <- <-]; simpl.
      * split; [done|]. rewrite Htr, <- !app_assoc.
        eexists; split; [done|].
        split; [intros ? [= <-]; eauto|].
        simpl. rewrite sink_results_app, Hsink. simpl. split; [done|].
        rewrite logged_timings_app; simpl. rewrite app_nil_r.
        unfold aggregate in Hagg. destruct res as [r'|]; simpl in *.
        -- injection Hagg as <-. left. unfold records_failure. tauto.
        -- right. destruct (logged_timings new) as [|t ts] eqn:Hts.
           ++ injection Hagg as <-. by left.
           ++ right. split; [done|]. split; [done|].
              destruct (sample_stdev W (t :: ts)) as [sd|e]; [|done].
              injection Hagg as <-. by exists sd.
      * split; [done|]. rewrite Htr, <- !app_assoc.
        eexists; split; [done|].
        split; [intros ? [= <-]; eauto|]. done.
    + intros [= <- <-]. split; [done|]. rewrite Htr, <- !app_assoc.
      eexists; split; [done|].
      split; [intros ? [= <-]; eauto|]. done.
Qed.

(** One call of the replay lookup function: no process is run, the sink is
    told the Result, the options are untouched. *)
Lemma testing_fn_spec csv_data x reps s :
  ∃ r, testing_fn W csv_data x reps s
       = (Ok r, mkState (st_opts s) (st_trace s ++ [EvAdd r])).
Proof. eexists. reflexivity. Qed.

End LiveFacts.

(** ** The bound check of [objective] *)

Lemma in_or_out_of_bounds opts x : {in_bounds opts x} + {out_of_bounds opts x}.
Proof.
  unfold in_bounds, out_of_bounds.
  destruct (Z_lt_dec x.1 (num_gangs_min opts)); [right; lia|].
  destruct (Z_gt_dec x.1 (num_gangs_max opts)); [right; lia|].
  destruct (Z_lt_dec x.2 (vector_length_min opts)); [right; lia|].
  destruct (Z_gt_dec x.2 (vector_length_max opts)); [right; lia|].
  left; lia.
Qed.

Lemma objective_rejects run_test x s :
  out_of_bounds (st_opts s) x →
  objective run_test x s = (Ok (TestResult_error x "Point out of range"), s).
Proof.
  intros Hout. unfold objective, bind, get_opts, ret.
  destruct (x.1 <? _) eqn:H1; [done|].
  destruct (x.1 >? _) eqn:H2; [done|].
  destruct (x.2 <? _) eqn:H3; [done|].
  destruct (x.2 >? _) eqn:H4; [done|].
  exfalso. unfold out_of_bounds in Hout. lia.
Qed.

Lemma objective_accepts run_test x s :
  in_bounds (st_opts s) x →
  objective run_test x s = run_test x (repetitions (st_opts s)) s.
Proof.
  intros Hin. unfold objective, bind, get_opts. unfold in_bounds in Hin.
  replace (x.1 <? _) with false by lia.
  replace (x.1 >? _) with false by lia.
  replace (x.2 <? _) with false by lia.
  replace (x.2 >? _) with false by lia.
  done.
Qed.

(** C1: for every Point whose gang count or vector length lies outside the
    configured bounds, the objective function returns the error Result 'Point
    out of range' and does nothing else: the state after the call is the state
    before it, so no process (compile or execute) was run and no repetition
    was consumed, whatever function evaluates the points in range. *)
Theorem objective_out_of_range_no_invocation
    (run_test : Point → Z → M TestResult) (x : Point) (s : State) :
  x.1 < num_gangs_min (st_opts s) ∨ x.1 > num_gangs_max (st_opts s) ∨
  x.2 < vector_length_min (st_opts s) ∨ x.2 > vector_length_max (st_opts s) →
  ∃ s', objective run_test x s
        = (Ok (mkTestResult x None None (Some "Point out of range")), s') ∧
    s' = s ∧
    events_since s s' = [] ∧
    invocations (st_trace s') = invocations (st_trace s).
Proof.
  intros Hout. exists s. rewrite objective_rejects by exact Hout.
  split; [done|]. split; [done|]. split; [|done].
  apply events_since_app. by rewrite app_nil_r.
Qed.

Lemma objective_out_of_range_no_invocation_witness :
  ∃ s', objective (tuning_fn (Demo.world ∅ Demo.steady)) (2048, 128) (Demo.start 10)
        = (Ok (mkTestResult (2048, 128) None None (Some "Point out of range")), s') ∧
    s' = Demo.start 10 ∧
    events_since (Demo.start 10) s' = [] ∧
    invocations (st_trace s') = invocations (st_trace (Demo.start 10)).
Proof.
  apply (objective_out_of_range_no_invocation
           (tuning_fn (Demo.world ∅ Demo.steady)) (2048, 128) (Demo.start 10)).
  simpl. lia.
Defined.

Section ObjectiveFacts.
Context (W : World).

(** The objective function, in either mode: the trace only grows, the options
    stay as they are, and the sink is told at most the Result returned. *)
Lemma objective_spec mode x s o s' :
  objective (run_test W mode) x s = (o, s') →
  st_opts s' = st_opts s ∧
  ∃ new, st_trace s' = st_trace s ++ new ∧
    match o with
    | Ok r => sink_results new = [r] ∨ sink_results new = []
    | Raise _ => sink_results new = []
    end.
Proof.
  destruct (in_or_out_of_bounds (st_opts s) x) as [Hin|Hout].
  - rewrite objective_accepts by done. destruct mode as [|csv_data]; simpl.
    + intros Hrun. apply tuning_fn_spec in Hrun as (Ho & new & Htr & _ & Hres).
      split; [done|]. exists new. split; [done|].
      destruct o; [left|]; tauto.
    + destruct (testing_fn_spec W csv_data x (repetitions (st_opts s)) s) as [r ->].
      intros [= <- <-]. split; [done|]. eexists; split; [done|]. by left.
  - rewrite objective_rejects by done. intros [= <- <-].
    split; [done|]. exists []. rewrite app_nil_r. split; [done|]. by right.
Qed.

End ObjectiveFacts.

(** C10: a Result of the bound check never reaches the sink.  For a Point out
    of bounds the objective function returns 'Point out of range' and the sink
    is told nothing; whenever the sink is told a Result during a call of the
    objective function, the Point is within bounds and that Result is the one
    the evaluation function of the mode (live or replay) returned for it. *)
Theorem sink_gets_no_out_of_range_result
    (W : World) (mode : Mode) (x : Point) (s s' : State) (o : outcome TestResult) :
  objective (run_test W mode) x s = (o, s') →
  (out_of_bounds (st_opts s) x →
     o = Ok (TestResult_error x "Point out of range") ∧
     sink_results (events_since s s') = []) ∧
  (∀ r, r ∈ sink_results (events_since s s') →
     in_bounds (st_opts s) x ∧
     run_test W mode x (repetitions (st_opts s)) s = (Ok r, s')).
Proof.
  intros Hrun. split.
  - intros Hout. rewrite objective_rejects in Hrun by done.
    injection Hrun as <- <-. split; [done|].
    by rewrite (events_since_app s s []) by (by rewrite app_nil_r).
  - intros r Hr.
    destruct (in_or_out_of_bounds (st_opts s) x) as [Hin|Hout].
    + split; [done|]. rewrite objective_accepts in Hrun by done.
      rewrite Hrun. destruct mode as [|csv_data]; simpl in Hrun.
      * apply tuning_fn_spec in Hrun as (_ & new & Htr & _ & Hres).
        rewrite (events_since_app _ _ _ Htr) in Hr.
        destruct o as [r'|e].
        -- destruct Hres as [Hsink _]. rewrite Hsink in Hr.
           apply list_elem_of_singleton in Hr. by subst.
        -- rewrite Hres in Hr. by apply elem_of_nil in Hr.
      * destruct (testing_fn_spec W csv_data x (repetitions (st_opts s)) s) as [r' Hr'].
        rewrite Hr' in Hrun. injection Hrun as <- <-.
        rewrite (events_since_app _ _ [EvAdd r']) in Hr by done.
        simpl in Hr. apply list_elem_of_singleton in Hr. by subst.
    + rewrite objective_rejects in Hrun by done. injection Hrun as <- <-.
      rewrite (events_since_app s s []) in Hr by (by rewrite app_nil_r).
      by apply elem_of_nil in Hr.
Qed.

Lemma sink_gets_no_out_of_range_result_witness :
  let W := Demo.world ∅ Demo.three_runs in
  let s := Demo.start 3 in
  let ran := objective (run_test W Live) (256, 128) s in
  (out_of_bounds (st_opts s) (256, 128) →
     ran.1 = Ok (TestResult_error (256, 128) "Point out of range") ∧
     sink_results (events_since s ran.2) = []) ∧
  (∀ r, r ∈ sink_results (events_since s ran.2) →
     in_bounds (st_opts s) (256, 128) ∧
     run_test W Live (256, 128) (repetitions (st_opts s)) s = (Ok r, ran.2)).
Proof.
  intros W s ran.
  apply (sink_gets_no_out_of_range_result W Live (256, 128) s ran.2 ran.1).
  vm_compute. reflexivity.
Defined.

(** ** No cache in the harness *)

(** The refutation of C2 as stated: on a platform where the compiler succeeds
    and every run prints its time, a second request for the point (256, 128)
    runs the compiler and the executable again. *)
Lemma second_request_runs_processes_again :
  ¬ answered_from_cache (Demo.world ∅ Demo.steady) Live (256, 128) (Demo.start 1).
Proof.
  intros H.
  pose (r1 := objective (run_test (Demo.world ∅ Demo.steady) Live) (256, 128)
                (Demo.start 1)).
  pose (r2 := objective (run_test (Demo.world ∅ Demo.steady) Live) (256, 128) r1.2).
  destruct (H r1.1 r1.2 r2.1 r2.2) as [_ Hinv];
    [vm_compute; reflexivity | vm_compute; reflexivity |].
  vm_compute in Hinv. discriminate.
Qed.

(** C2 (amended): the harness keeps no cache of Results.  In live mode every
    request for a Point within bounds runs the compile command again, also
    when the Point was evaluated just before: two requests in a row each
    start by running the rendered compile command, so at least two more
    processes have run.  In replay mode no process is ever run and a request
    repeated gives the same Result, looked up again. *)
Theorem harness_keeps_no_cache
    (W : World) (x : Point) (s s1 s2 : State) (o1 o2 : outcome TestResult)
    (command : string) :
  in_bounds (st_opts s) x →
  str_format W (compile_command (st_opts s)) (source (st_opts s)) x.1 x.2
    = Ok command →
  objective (run_test W Live) x s = (o1, s1) →
  objective (run_test W Live) x s1 = (o2, s2) →
  (∃ rest, events_since s s1
           = EvCall command (Some (compile_env W x.1 x.2)) :: rest) ∧
  (∃ rest, events_since s1 s2
           = EvCall command (Some (compile_env W x.1 x.2)) :: rest) ∧
  (invocations (st_trace s) + 2 ≤ invocations (st_trace s2))%nat ∧
  (∀ csv_data t t1 t2 r1 r2,
     objective (run_test W (Replay csv_data)) x t = (r1, t1) →
     objective (run_test W (Replay csv_data)) x t1 = (r2, t2) →
     r2 = r1 ∧ invocations (st_trace t2) = invocations (st_trace t)).
Proof.
  intros Hin Hfmt Hrun1 Hrun2.
  rewrite objective_accepts in Hrun1 by done. simpl in Hrun1.
  apply tuning_fn_spec in Hrun1 as (Ho1 & new1 & Htr1 & Hfirst1 & _).
  rewrite objective_accepts in Hrun2 by (by rewrite Ho1). simpl in Hrun2.
  apply tuning_fn_spec in Hrun2 as (Ho2 & new2 & Htr2 & Hfirst2 & _).
  rewrite Ho1 in Hfirst2.
  destruct (Hfirst1 _ Hfmt) as [rest1 ->], (Hfirst2 _ Hfmt) as [rest2 ->].
  rewrite (events_since_app _ _ _ Htr1), (events_since_app _ _ _ Htr2).
  split; [eauto|]. split; [eauto|]. split.
  - rewrite Htr2, Htr1, !invocations_app, !invocations_cons_call. lia.
  - intros csv_data t t1 t2 r1 r2 Hr1 Hr2.
    assert (Hstep : ∀ u u' r, objective (run_test W (Replay csv_data)) x u = (r, u') →
              st_opts u' = st_opts u ∧
              invocations (st_trace u') = invocations (st_trace u) ∧
              ∀ v, st_opts v = st_opts u →
                   (objective (run_test W (Replay csv_data)) x v).1 = r).
    { intros u u' r Hu.
      destruct (in_or_out_of_bounds (st_opts u) x) as [Hi|Hout].
      - rewrite objective_accepts in Hu by done. simpl in Hu.
        unfold testing_fn, bind, output_writer_add, emit, ret in Hu; simpl in Hu.
        injection Hu as <- <-. simpl. split; [done|].
        split; [rewrite invocations_app; unfold invocations at 2; simpl; lia|].
        intros v Hv. rewrite objective_accepts by (by rewrite Hv). done.
      - rewrite objective_rejects in Hu by done. injection Hu as <- <-.
        split; [done|]. split; [done|].
        intros v Hv. by rewrite objective_rejects by (by rewrite Hv). }
    destruct (Hstep _ _ _ Hr1) as (Ht1 & Hi1 & Hsame).
    destruct (Hstep _ _ _ Hr2) as (_ & Hi2 & _).
    split; [|congruence].
    specialize (Hsame t1 Ht1). rewrite Hr2 in Hsame. done.
Qed.

Lemma harness_keeps_no_cache_witness :
  let W := Demo.world ∅ Demo.steady in
  let s := Demo.start 1 in
  let r1 := objective (run_test W Live) (256, 128) s in
  let r2 := objective (run_test W Live) (256, 128) r1.2 in
  (∃ rest, events_since s r1.2
           = EvCall "make" (Some (compile_env W 256 128)) :: rest) ∧
  (∃ rest, events_since r1.2 r2.2
           = EvCall "make" (Some (compile_env W 256 128)) :: rest) ∧
  (invocations (st_trace s) + 2 ≤ invocations (st_trace r2.2))%nat ∧
  (∀ csv_data t t1 t2 q1 q2,
     objective (run_test W (Replay csv_data)) (256, 128) t = (q1, t1) →
     objective (run_test W (Replay csv_data)) (256, 128) t1 = (q2, t2) →
     q2 = q1 ∧ invocations (st_trace t2) = invocations (st_trace t)).
Proof.
  intros W s r1 r2.
  apply (harness_keeps_no_cache W (256, 128) s r1.2 r2.2 r1.1 r2.1 "make").
  - vm_compute. repeat split; discriminate.
  - reflexivity.
  - vm_compute. reflexivity.
  - vm_compute. reflexivity.
Defined.

(** ** The environment of the compile command *)

Lemma compile_env_lookup (W : World) (num_gangs vector_length : Z) (k : string) :
  compile_env W num_gangs vector_length !! k =
    match os_environ W !! k with
    | Some v => Some v
    | None =>
        ({[ "NUM_GANGS" := pretty num_gangs;
            "VECTOR_LENGTH" := pretty vector_length ]} : gmap string string) !! k
    end.
Proof.
  unfold compile_env, dict_update. rewrite lookup_union.
  destruct (os_environ W !! k) as [v|]; simpl.
  - by destruct (_ !! k).
  - by destruct (_ !! k).
Qed.

(** When the process environment defines neither variable, the compile
    command sees the values of the point. *)
Lemma compile_env_fresh (W : World) (num_gangs vector_length : Z) :
  os_environ W !! "NUM_GANGS" = None →
  os_environ W !! "VECTOR_LENGTH" = None →
  compile_env W num_gangs vector_length !! "NUM_GANGS" = Some (pretty num_gangs) ∧
  compile_env W num_gangs vector_length !! "VECTOR_LENGTH"
    = Some (pretty vector_length).
Proof.
  intros H1 H2. rewrite !compile_env_lookup, H1, H2. split.
  - by rewrite lookup_insert_eq.
  - rewrite lookup_insert_ne by done. by rewrite lookup_singleton_eq.
Qed.

(** A variable that the process environment already defines keeps its value. *)
Lemma compile_env_inherited (W : World) (num_gangs vector_length : Z) k v :
  os_environ W !! k = Some v →
  compile_env W num_gangs vector_length !! k = Some v.
Proof. intros H. by rewrite compile_env_lookup, H. Qed.

(** C9, at the input where the code departs from it: the tuner is started in
    a process environment that already has NUM_GANGS=1 and evaluates the
    point (256, 128).  The compile command is run in an environment where
    NUM_GANGS is still 1, not 256: [env.update(os.environ)] lets the inherited
    value replace the one set for the point. *)
Theorem compile_env_inherited_value_wins :
  let W := Demo.world {[ "NUM_GANGS" := "1" ]} Demo.steady in
  ∃ command env rest,
    events_since (Demo.start 1) (tuning_fn W (256, 128) 1 (Demo.start 1)).2
      = EvCall command (Some env) :: rest ∧
    env = compile_env W 256 128 ∧
    env !! "NUM_GANGS" = Some "1" ∧
    env !! "NUM_GANGS" ≠ Some (pretty 256) ∧
    env !! "VECTOR_LENGTH" = Some (pretty 128).
Proof.
  intros W. eexists _, _, _. split; [vm_compute; reflexivity|].
  split; [vm_compute; reflexivity|].
  split; [vm_compute; reflexivity|].
  split; [vm_compute; discriminate|vm_compute; reflexivity].
Qed.

(** ** Aggregation of the timings *)


Lemma squared_distances_each (W : World) (avg : Q) (results squares : list Q) :
  squared_distances W avg results = Ok squares →
  Forall2 (λ x d, float_pow W (float_sub W x avg) 2 = Ok d) results squares.
Proof.
  revert squares. induction results as [|x results IH]; intros squares; simpl.
  - intros [= <-]. constructor.
  - destruct (float_pow W (float_sub W x avg) 2) as [d|e] eqn:Hd; [|done].
    destruct (squared_distances W avg results) as [ds|e]; [|done].
    intros [= <-]. constructor; [done|]. by apply IH.
Qed.



(** ** A run that fails *)

Section FailureFacts.
Context (W : World).

Lemma repetitions_loop_successes opts x ts : ∀ m results s,
  (∀ (j : nat) t, ts !! j = Some t →
     ∃ output rc,
       call_command_result W (invocations (st_trace s) + j) (executable opts) None
         = (output, rc) ∧
       (rc = 0 ∨ ignore_exit opts = true) ∧
       read_time W opts x output = Ok (inr t)) →
  repetitions_loop W opts x (length ts + m) results s =
  repetitions_loop W opts x m (results ++ ts)
    (mkState (st_opts s) (st_trace s ++ successful_runs opts x ts)).
Proof.
  induction ts as [|t ts IH]; intros m results s Hall.
  - simpl. rewrite !app_nil_r. by destruct s.
  - simpl. unfold bind at 1. unfold call_command at 1. simpl.
    destruct (Hall 0%nat t eq_refl) as (output & rc & Hcall & Hrc & Htime).
    rewrite Nat.add_0_r in Hcall. rewrite Hcall.
    replace (negb (rc =? 0) && negb (ignore_exit opts)) with false.
    2:{ destruct Hrc as [->| ->]; [done|]. by rewrite andb_false_r. }
    unfold bind, lift. rewrite Htime.
    unfold output_writer_log_run, emit. simpl.
    rewrite IH; simpl.
    + by rewrite <- !app_assoc.
    + intros j t' Hj. specialize (Hall (S j) t' Hj).
      rewrite !invocations_app.
      match goal with
      | |- context [call_command_result W ?n] =>
          replace n with (invocations (st_trace s) + S j)%nat
            by (unfold invocations; simpl; lia)
      end.
      exact Hall.
Qed.

Lemma logged_timings_successful_runs opts x ts :
  logged_timings (successful_runs opts x ts) = ts.
Proof. induction ts as [|t ts IH]; [done|]. simpl. by rewrite IH. Qed.

Lemma invocations_successful_runs opts x ts :
  invocations (successful_runs opts x ts) = length ts.
Proof.
  induction ts as [|t ts IH]; [done|]. simpl.
  rewrite invocations_cons_call. unfold invocations in *. simpl. by rewrite IH.
Qed.

Lemma sink_results_successful_runs opts x ts :
  sink_results (successful_runs opts x ts) = [].
Proof. induction ts as [|t ts IH]; [done|]. done. Qed.

End FailureFacts.

(** C4: with ignore_exit off, let the compiler succeed, let the first k - 1
    runs of the executable exit with 0 and print the timings [ts], and let run
    k (2 <= k <= n, n the repetitions asked for) exit with a non-zero code.
    Then the Result is the error 'Executable failed', with no mean and no
    deviation; after the compiler exactly k runs of the executable have taken
    place, so runs k+1..n were not attempted; each of the k - 1 timings was
    reported to the raw-run reporter right after its run, before the failing
    run; and the sink is told the error Result only. *)
Theorem executable_failure_abandons_point
    (W : World) (x : Point) (reps : Z) (s : State) (k : nat) (ts : list Q)
    (command : string) :
  let opts := st_opts s in
  let first := invocations (st_trace s) in
  let env := compile_env W x.1 x.2 in
  ignore_exit opts = false →
  str_format W (compile_command opts) (source opts) x.1 x.2 = Ok command →
  (call_command_result W first command (Some env)).2 = 0 →
  (2 ≤ k ≤ Z.to_nat reps)%nat →
  length ts = (k - 1)%nat →
  (∀ (j : nat) t, ts !! j = Some t →
     ∃ output,
       call_command_result W (first + 1 + j) (executable opts) None = (output, 0) ∧
       read_time W opts x output = Ok (inr t)) →
  (call_command_result W (first + k) (executable opts) None).2 ≠ 0 →
  ∃ s',
    tuning_fn W x reps s = (Ok (TestResult_error x "Executable failed"), s') ∧
    average (TestResult_error x "Executable failed") = None ∧
    stdev (TestResult_error x "Executable failed") = None ∧
    events_since s s' =
      [EvCall command (Some env)] ++
      flat_map (λ t, [EvCall (executable opts) None; EvLogRun x t]) ts ++
      [EvCall (executable opts) None;
       EvAdd (TestResult_error x "Executable failed")] ∧
    invocations (events_since s s') = S k ∧
    logged_timings (events_since s s') = ts ∧
    sink_results (events_since s s') = [TestResult_error x "Executable failed"].
Proof.
  intros opts first env Hignore Hfmt Hcompile Hk Hlen Hruns Hfail.
  destruct x as [num_gangs vector_length]. simpl in *.
  set (new := [EvCall command (Some env)] ++
      successful_runs opts (num_gangs, vector_length) ts ++
      [EvCall (executable opts) None;
       EvAdd (TestResult_error (num_gangs, vector_length) "Executable failed")]).
  exists (mkState opts (st_trace s ++ new)).
  assert (Hsince : events_since s (mkState opts (st_trace s ++ new)) = new)
    by (by apply events_since_app).
  rewrite Hsince. split; [|split; [done|split; [done|split; [done|]]]].
  - unfold tuning_fn, bind, get_opts, lift. fold opts. simpl. rewrite Hfmt.
    fold first env.
    destruct (call_command_result W first command (Some env)) as [output rc].
    simpl in Hcompile. subst rc. simpl.
    replace (Z.to_nat reps) with (length ts + S (Z.to_nat reps - k))%nat by lia.
    rewrite (repetitions_loop_successes W opts (num_gangs, vector_length) ts).
    + simpl. unfold bind at 1. unfold call_command at 1. simpl.
      rewrite !invocations_app, invocations_successful_runs. fold first.
      match goal with
      | |- context [call_command_result W ?n] =>
          replace n with (first + k)%nat by (unfold invocations; simpl; lia)
      end.
      destruct (call_command_result W (first + k) (executable opts) None)
        as [output' rc'].
      simpl in Hfail. replace (rc' =? 0) with false by lia.
      fold opts. rewrite Hignore. simpl.
      unfold bind, ret, output_writer_add, emit. simpl.
      subst new. by rewrite <- !app_assoc.
    + intros j t Hj. destruct (Hruns j t Hj) as (output' & Hcall & Htime).
      exists output', 0. simpl. rewrite invocations_app. fold first.
      match goal with
      | |- context [call_command_result W ?n] =>
          replace n with (first + 1 + j)%nat by (unfold invocations; simpl; lia)
      end.
      auto.
  - subst new.
    rewrite !invocations_app, !logged_timings_app, !sink_results_app,
      invocations_successful_runs, logged_timings_successful_runs,
      sink_results_successful_runs.
    simpl. rewrite app_nil_r. split; [|done].
    unfold invocations; simpl. lia.
Qed.

Lemma executable_failure_abandons_point_witness :
  let W := Demo.world ∅ Demo.crash_on_second in
  let x : Point := (256, 128) in
  let s := Demo.start 5 in
  ∃ s',
    tuning_fn W x 5 s = (Ok (TestResult_error x "Executable failed"), s') ∧
    average (TestResult_error x "Executable failed") = None ∧
    stdev (TestResult_error x "Executable failed") = None ∧
    events_since s s' =
      [EvCall "make" (Some (compile_env W 256 128))] ++
      flat_map (λ t, [EvCall "./a.out" None; EvLogRun x t]) [3%Q] ++
      [EvCall "./a.out" None; EvAdd (TestResult_error x "Executable failed")] ∧
    invocations (events_since s s') = 3%nat ∧
    logged_timings (events_since s s') = [3%Q] ∧
    sink_results (events_since s s') = [TestResult_error x "Executable failed"].
Proof.
  intros W x s.
  apply (executable_failure_abandons_point W x 5 s 2 [3%Q] "make").
  - reflexivity.
  - reflexivity.
  - reflexivity.
  - vm_compute. lia.
  - reflexivity.
  - intros [|[|j]] t Hj; [|discriminate..].
    injection Hj as <-. exists "time=3". split; reflexivity.
  - vm_compute. discriminate.
Defined.

(** ** Replay mode *)

Section ReplayFacts.
Context (W : World) (int_of_string : string → option Z).

Lemma read_row_error_msg row k v :
  read_row W int_of_string row = Ok (k, v) →
  row !! "error msg" = Some (row_error_msg v).
Proof.
  unfold read_row, outcome_bind, row_field, to_int, to_float.
  repeat (case_match; try discriminate).
  intros [= <- <-]. simpl. congruence.
Qed.

Lemma read_rows_lookup rows : ∀ d0 d x,
  read_rows W int_of_string rows d0 = Ok d →
  match d !! x with
  | None => d0 !! x = None ∧
            ∀ row v, row ∈ rows → read_row W int_of_string row ≠ Ok (x, v)
  | Some v => d0 !! x = Some v ∨
              ∃ row, row ∈ rows ∧ read_row W int_of_string row = Ok (x, v)
  end.
Proof.
  induction rows as [|row rows IH]; intros d0 d x; simpl.
  - intros [= <-]. destruct (d0 !! x); [by left|].
    split; [done|]. intros row v Hin. by apply elem_of_nil in Hin.
  - unfold outcome_bind at 1.
    destruct (read_row W int_of_string row) as [[k v]|e] eqn:Hrow; [|done].
    simpl. intros Hrest. specialize (IH _ _ x Hrest).
    destruct (d !! x) as [v'|].
    + destruct IH as [Hd0|(row' & Hin & Hrow')].
      * destruct (decide (k = x)) as [->|Hne].
        -- rewrite lookup_insert_eq in Hd0. injection Hd0 as <-.
           right. exists row. split; [apply elem_of_cons; by left|done].
        -- rewrite lookup_insert_ne in Hd0 by done. by left.
      * right. exists row'. split; [apply elem_of_cons; by right|done].
    + destruct IH as [Hd0 Hnone].
      destruct (decide (k = x)) as [->|Hne].
      * by rewrite lookup_insert_eq in Hd0.
      * rewrite lookup_insert_ne in Hd0 by done. split; [done|].
        intros row' v' Hin. apply elem_of_cons in Hin as [->|Hin].
        -- rewrite Hrow. congruence.
        -- by apply Hnone.
Qed.

Lemma exit_on_bad_file_ok {A} (o : outcome A) a :
  exit_on_bad_file o = Ok a → o = Ok a.
Proof. destruct o as [a'|[]]; simpl; congruence. Qed.

Lemma load_testing_data_dataset rows csv_data known_best sdata :
  load_testing_data W int_of_string rows = Ok (csv_data, known_best, sdata) →
  read_rows W int_of_string rows ∅ = Ok csv_data ∧
  sdata = sorted_points csv_data ∧ sdata ≠ [].
Proof.
  unfold load_testing_data, outcome_bind.
  destruct (exit_on_bad_file _) as [d|e] eqn:Hread; [|done].
  apply exit_on_bad_file_ok in Hread.
  destruct (sorted_points d) as [|best rest] eqn:Hsorted; [done|].
  destruct (d !! best); [|done].
  intros [= <- <- <-]. done.
Qed.

End ReplayFacts.

(** The refutation of C5 as stated: a row read with an empty error message
    (the text the file holds for a success) is present in the dataset, yet
    the Result for its point is an error Result with the empty message and
    without the recorded mean and deviation. *)
Lemma empty_error_message_gives_error_result :
  let W := Demo.world ∅ Demo.steady in
  ∃ csv_data known_best sdata r s',
    load_testing_data W Demo.int_of_string DemoData.rows
      = Ok (csv_data, known_best, sdata) ∧
    testing_fn W csv_data (256, 128) 1 (Demo.start 1) = (Ok r, s') ∧
    csv_data !! (256, 128) = Some (mkValues 3 1 (Some "")) ∧
    r = mkTestResult (256, 128) None None (Some "") ∧
    ¬ replay_as_claimed W csv_data (256, 128) r.
Proof.
  intros W.
  exists {[ (256, 128) := mkValues 3 1 (Some "");
            (512, 128) := mkValues 4 1 None;
            (1024, 128) := mkValues 0 0 (Some "Executable failed") ]},
    (mkTestResult (1024, 128) (Some 0%Q) (Some 0%Q) (Some "Executable failed")),
    [(1024, 128); (256, 128); (512, 128)].
  eexists _, _.
  split; [vm_compute; reflexivity|].
  split; [reflexivity|].
  split; [reflexivity|].
  split; [reflexivity|].
  unfold replay_as_claimed.
  change (¬ (TestResult_error (256, 128) "" = TestResult_ok (256, 128) 3 1)).
  discriminate.
Qed.

(** C5 (amended): in replay mode, for every queried Point, no process is run
    and the sink is told the Result, which is: the not-in-dataset error when
    no row of the file is for the Point; an error Result carrying the recorded
    text and no mean whenever the row of the Point has an error-message field,
    the empty text included; and a success carrying exactly the recorded mean
    and deviation only when that field is absent from the row. *)
Theorem replay_reproduces_dataset
    (W : World) (int_of_string : string → option Z)
    (rows : list (gmap string (option string)))
    (csv_data : gmap Point Values) (known_best : TestResult) (sdata : list Point)
    (x : Point) (reps : Z) (s : State) :
  load_testing_data W int_of_string rows = Ok (csv_data, known_best, sdata) →
  ∃ r,
    testing_fn W csv_data x reps s
      = (Ok r, mkState (st_opts s) (st_trace s ++ [EvAdd r])) ∧
    match csv_data !! x with
    | None =>
        (∀ row v, row ∈ rows → read_row W int_of_string row ≠ Ok (x, v)) ∧
        r = TestResult_error x (Point_str W x +:+ " not in CSV data")
    | Some v =>
        (∃ row, row ∈ rows ∧ read_row W int_of_string row = Ok (x, v) ∧
                row !! "error msg" = Some (row_error_msg v)) ∧
        match row_error_msg v with
        | Some msg => r = TestResult_error x msg
        | None => r = TestResult_ok x (row_time v) (row_stdev v)
        end
    end.
Proof.
  intros Hload.
  apply load_testing_data_dataset in Hload as (Hread & _ & _).
  pose proof (read_rows_lookup W int_of_string rows ∅ csv_data x Hread) as Hlook.
  eexists. split; [reflexivity|].
  destruct (csv_data !! x) as [v|].
  - destruct Hlook as [Hempty|(row & Hin & Hrow)];
      [by rewrite lookup_empty in Hempty|].
    split.
    + exists row. split; [done|]. split; [done|].
      by apply read_row_error_msg in Hrow.
    + by destruct (row_error_msg v).
  - by destruct Hlook.
Qed.

Lemma replay_reproduces_dataset_witness :
  let W := Demo.world ∅ Demo.steady in
  let csv_data : gmap Point Values :=
    {[ (256, 128) := mkValues 3 1 (Some "");
       (512, 128) := mkValues 4 1 None;
       (1024, 128) := mkValues 0 0 (Some "Executable failed") ]} in
  let x : Point := (512, 128) in
  let s := Demo.start 1 in
  ∃ r,
    testing_fn W csv_data x 1 s
      = (Ok r, mkState (st_opts s) (st_trace s ++ [EvAdd r])) ∧
    match csv_data !! x with
    | None =>
        (∀ row v, row ∈ DemoData.rows →
                  read_row W Demo.int_of_string row ≠ Ok (x, v)) ∧
        r = TestResult_error x (Point_str W x +:+ " not in CSV data")
    | Some v =>
        (∃ row, row ∈ DemoData.rows ∧
                read_row W Demo.int_of_string row = Ok (x, v) ∧
                row !! "error msg" = Some (row_error_msg v)) ∧
        match row_error_msg v with
        | Some msg => r = TestResult_error x msg
        | None => r = TestResult_ok x (row_time v) (row_stdev v)
        end
    end.
Proof.
  intros W csv_data x s.
  apply (replay_reproduces_dataset W Demo.int_of_string DemoData.rows csv_data
           (mkTestResult (1024, 128) (Some 0%Q) (Some 0%Q) (Some "Executable failed"))
           [(1024, 128); (256, 128); (512, 128)] x 1 s).
  vm_compute. reflexivity.
Defined.

(** ** The heuristic *)

Lemma has_zero_stdev_is_zero r : has_zero_stdev r → stdev_is_zero r = true.
Proof.
  intros (sd & Hsd & Hzero). unfold stdev_is_zero. rewrite Hsd.
  by apply Qeq_bool_iff.
Qed.

(** C6: let the three probes return the Results i, g and v.  If the
    repetition count is 1, or one of the three Results has a standard
    deviation that is exactly 0, the heuristic returns (True, True) without
    calling the significance test, and the configuration after it is the one
    before it: the four bounds are unchanged, whatever the means of the
    probes. *)
Theorem heuristic_gate_skips_degenerate_probes
    (W : World) (mode : Mode) (s s1 s2 s3 : State) (i g v : TestResult) :
  objective (run_test W mode) (256, 128) s = (Ok i, s1) →
  objective (run_test W mode) (1024, 128) s1 = (Ok g, s2) →
  objective (run_test W mode) (256, 1024) s2 = (Ok v, s3) →
  repetitions (st_opts s) = 1 ∨
    has_zero_stdev i ∨ has_zero_stdev g ∨ has_zero_stdev v →
  run_heuristic W (objective (run_test W mode)) s = (Ok (true, true), s3) ∧
  st_opts s3 = st_opts s ∧
  num_gangs_min (st_opts s3) = num_gangs_min (st_opts s) ∧
  num_gangs_max (st_opts s3) = num_gangs_max (st_opts s) ∧
  vector_length_min (st_opts s3) = vector_length_min (st_opts s) ∧
  vector_length_max (st_opts s3) = vector_length_max (st_opts s).
Proof.
  intros Hi Hg Hv Hdegenerate.
  assert (Hopts : st_opts s3 = st_opts s).
  { apply objective_spec in Hi as [Hi _], Hg as [Hg _], Hv as [Hv _]. congruence. }
  split; [|by rewrite Hopts].
  unfold run_heuristic, bind. rewrite Hi, Hg, Hv. unfold get_opts. rewrite Hopts.
  replace ((repetitions (st_opts s) =? 1) || stdev_is_zero i || stdev_is_zero g
           || stdev_is_zero v) with true; [done|].
  symmetry. destruct Hdegenerate as [Hn|[Hz|[Hz|Hz]]].
  - rewrite Hn. done.
  - rewrite (has_zero_stdev_is_zero _ Hz). by rewrite orb_true_r.
  - rewrite (has_zero_stdev_is_zero _ Hz). by rewrite orb_true_r.
  - rewrite (has_zero_stdev_is_zero _ Hz). by rewrite orb_true_r.
Qed.

Lemma heuristic_gate_skips_degenerate_probes_witness :
  let W := Demo.world ∅ Demo.steady in
  let s := Demo.start 2 in
  let p1 := objective (run_test W Live) (256, 128) s in
  let p2 := objective (run_test W Live) (1024, 128) p1.2 in
  let p3 := objective (run_test W Live) (256, 1024) p2.2 in
  run_heuristic W (objective (run_test W Live)) s = (Ok (true, true), p3.2) ∧
  st_opts p3.2 = st_opts s ∧
  num_gangs_min (st_opts p3.2) = num_gangs_min (st_opts s) ∧
  num_gangs_max (st_opts p3.2) = num_gangs_max (st_opts s) ∧
  vector_length_min (st_opts p3.2) = vector_length_min (st_opts s) ∧
  vector_length_max (st_opts p3.2) = vector_length_max (st_opts s).
Proof.
  intros W s p1 p2 p3.
  apply (heuristic_gate_skips_degenerate_probes W Live s p1.2 p2.2 p3.2
           (TestResult_ok (256, 128) (6 # 2) 0)
           (TestResult_ok (1024, 128) (6 # 2) 0)
           (TestResult_ok (256, 1024) (6 # 2) 0)).
  - vm_compute. reflexivity.
  - vm_compute. reflexivity.
  - vm_compute. reflexivity.
  - right. left. exists 0%Q. split; reflexivity.
Defined.

(** ** The grid of [_tune_RSM] *)

Lemma ceil_quotient_ceil_div a g : g ≠ 0 → ceil_quotient a g = ceil_div a g.
Proof.
  intros Hg. unfold ceil_quotient, ceil_div, Qceiling. f_equal.
  destruct g as [|p|p]; [done| |].
  - unfold Qdiv, Qinv, Qmult, Qopp, inject_Z, Qfloor; simpl.
    by rewrite Z.mul_1_r.
  - unfold Qdiv, Qinv, Qmult, Qopp, inject_Z, Qfloor; simpl.
    change (Z.neg p) with (- Z.pos p).
    rewrite Z.div_opp_opp by done. f_equal. lia.
Qed.

Lemma ceil_div_le a g i : 0 < g → ceil_div a g ≤ i ↔ a ≤ g * i.
Proof.
  intros Hg. unfold ceil_div. split.
  - intros H. assert (- i ≤ (- a) / g) as H' by lia.
    pose proof (Z.mul_div_le (- a) g Hg). nia.
  - intros H. assert (- i ≤ (- a) / g); [|lia].
    apply Z.div_le_lower_bound; lia.
Qed.

Lemma floor_div_ge b g i : 0 < g → i ≤ b / g ↔ g * i ≤ b.
Proof.
  intros Hg. split.
  - intros H. pose proof (Z.mul_div_le b g Hg). nia.
  - intros H. apply Z.div_le_lower_bound; lia.
Qed.

Lemma fmap_bind_pairs {A B C} (f : A * B → C) (l1 : list A) (l2 : list B) :
  (i ← l1; j ← l2; [f (i, j)]) = f <$> (i ← l1; j ← l2; [(i, j)]).
Proof.
  induction l1 as [|i l1 IH]; [done|]. csimpl. rewrite fmap_app, IH. f_equal.
  clear IH. induction l2 as [|j l2 IH]; [done|]. csimpl. by rewrite IH.
Qed.

Lemma elem_of_bind_pairs {A B} (l1 : list A) (l2 : list B) i j :
  (i, j) ∈ (i ← l1; j ← l2; [(i, j)]) ↔ i ∈ l1 ∧ j ∈ l2.
Proof.
  rewrite list_elem_of_bind. split.
  - intros (i' & Hin & Hi'). apply list_elem_of_bind in Hin as (j' & Hin & Hj').
    apply list_elem_of_singleton in Hin. by simplify_eq.
  - intros [Hi Hj]. exists i. split; [|done].
    apply list_elem_of_bind. exists j. split; [|done]. by apply list_elem_of_singleton.
Qed.

Lemma NoDup_bind_pairs {A B} (l1 : list A) (l2 : list B) :
  NoDup l1 → NoDup l2 → NoDup (i ← l1; j ← l2; [(i, j)]).
Proof.
  intros H1 H2. apply NoDup_bind; [| |done].
  - intros i1 i2 [i j] _ _ Hin1 Hin2.
    apply list_elem_of_bind in Hin1 as (j1 & Hin1 & _).
    apply list_elem_of_bind in Hin2 as (j2 & Hin2 & _).
    apply list_elem_of_singleton in Hin1, Hin2. by simplify_eq.
  - intros i _. apply NoDup_bind; [| |done].
    + intros j1 j2 [i' j] _ _ Hin1 Hin2.
      apply list_elem_of_singleton in Hin1, Hin2. by simplify_eq.
    + intros j _. apply NoDup_singleton.
Qed.

(** C7: for a step g other than 0, with the step and the two minima of
    magnitude below 2^53 (where the float quotient under [math.ceil] has the
    ceiling of the exact quotient), the generator yields the points
    (max(g*i, 1), max(g*j, 1)) of a list of pairs (i, j) that holds exactly the
    integer pairs with ceil(gangMin/g) <= i <= floor(gangMax/g) and
    ceil(vectorMin/g) <= j <= floor(vectorMax/g), each once; for a positive
    step these are the pairs with gangMin <= g*i <= gangMax and vectorMin <=
    g*j <= vectorMax, and with positive minima no point is yielded twice.  For
    the bounds [2,1024] x [2,1024] and g = 256 the points are the 16 of the
    cross product of 256, 512, 768, 1024 with itself. *)
Theorem generator_enumerates_grid (opts : TuningOptions) (g : Z) :
  g ≠ 0 →
  Z.abs g < 2 ^ 53 →
  Z.abs (num_gangs_min opts) < 2 ^ 53 →
  Z.abs (vector_length_min opts) < 2 ^ 53 →
  ∃ pairs : list (Z * Z),
    generator opts g = Ok (grid_point g <$> pairs) ∧
    (∀ i j, (i, j) ∈ pairs ↔
       ceil_div (num_gangs_min opts) g ≤ i ≤ num_gangs_max opts / g ∧
       ceil_div (vector_length_min opts) g ≤ j ≤ vector_length_max opts / g) ∧
    NoDup pairs ∧
    (0 < g →
     ∀ i j, (i, j) ∈ pairs ↔
       num_gangs_min opts ≤ g * i ≤ num_gangs_max opts ∧
       vector_length_min opts ≤ g * j ≤ vector_length_max opts) ∧
    (0 < g → 0 < num_gangs_min opts → 0 < vector_length_min opts →
     NoDup (grid_point g <$> pairs)) ∧
    (g = 256 →
     num_gangs_min opts = 2 → num_gangs_max opts = 1024 →
     vector_length_min opts = 2 → vector_length_max opts = 1024 →
     pairs = [(1, 1); (1, 2); (1, 3); (1, 4); (2, 1); (2, 2); (2, 3); (2, 4);
              (3, 1); (3, 2); (3, 3); (3, 4); (4, 1); (4, 2); (4, 3); (4, 4)] ∧
     grid_point g <$> pairs =
       [(256, 256); (256, 512); (256, 768); (256, 1024);
        (512, 256); (512, 512); (512, 768); (512, 1024);
        (768, 256); (768, 512); (768, 768); (768, 1024);
        (1024, 256); (1024, 512); (1024, 768); (1024, 1024)]).
Proof.
  intros Hg _ _ _.
  set (gmin := ceil_div (num_gangs_min opts) g).
  set (gmax := num_gangs_max opts / g).
  set (vmin := ceil_div (vector_length_min opts) g).
  set (vmax := vector_length_max opts / g).
  exists (i ← py_range gmin (gmax + 1); j ← py_range vmin (vmax + 1); [(i, j)]).
  assert (Hmem : ∀ i j,
            (i, j) ∈ (i ← py_range gmin (gmax + 1);
                      j ← py_range vmin (vmax + 1); [(i, j)])
            ↔ gmin ≤ i ≤ gmax ∧ vmin ≤ j ≤ vmax).
  { intros i j. rewrite elem_of_bind_pairs. unfold py_range.
    rewrite !elem_of_seqZ. lia. }
  split; [|split; [exact Hmem|split; [|split; [|split]]]].
  - unfold generator. replace (g =? 0) with false by lia.
    rewrite !ceil_quotient_ceil_div by done. fold gmin gmax vmin vmax.
    f_equal. apply (fmap_bind_pairs (grid_point g)).
  - apply NoDup_bind_pairs; apply NoDup_seqZ.
  - intros Hpos i j. rewrite Hmem. subst gmin gmax vmin vmax.
    rewrite !ceil_div_le, !floor_div_ge by done. lia.
  - intros Hpos Hgang Hvec. apply NoDup_fmap_2_strong.
    + intros [i j] [i' j'] Hin Hin' Heq.
      apply Hmem in Hin as [[Hi _] [Hj _]], Hin' as [[Hi' _] [Hj' _]].
      subst gmin vmin. apply ceil_div_le in Hi, Hj, Hi', Hj'; try done.
      unfold grid_point in Heq. simpl in Heq.
      injection Heq as H1 H2. f_equal; nia.
    + apply NoDup_bind_pairs; apply NoDup_seqZ.
  - intros -> Hgmin Hgmax Hvmin Hvmax. subst gmin gmax vmin vmax.
    rewrite Hgmin, Hgmax, Hvmin, Hvmax. split; reflexivity.
Qed.

Lemma generator_enumerates_grid_witness :
  ∃ pairs : list (Z * Z),
    generator (Demo.options 1) 256 = Ok (grid_point 256 <$> pairs) ∧
    (∀ i j, (i, j) ∈ pairs ↔
       ceil_div 2 256 ≤ i ≤ 1024 / 256 ∧ ceil_div 2 256 ≤ j ≤ 1024 / 256) ∧
    NoDup pairs ∧
    (0 < 256 →
     ∀ i j, (i, j) ∈ pairs ↔ 2 ≤ 256 * i ≤ 1024 ∧ 2 ≤ 256 * j ≤ 1024) ∧
    (0 < 256 → 0 < 2 → 0 < 2 → NoDup (grid_point 256 <$> pairs)) ∧
    (256 = 256 → 2 = 2 → 1024 = 1024 → 2 = 2 → 1024 = 1024 →
     pairs = [(1, 1); (1, 2); (1, 3); (1, 4); (2, 1); (2, 2); (2, 3); (2, 4);
              (3, 1); (3, 2); (3, 3); (3, 4); (4, 1); (4, 2); (4, 3); (4, 4)] ∧
     grid_point 256 <$> pairs =
       [(256, 256); (256, 512); (256, 768); (256, 1024);
        (512, 256); (512, 512); (512, 768); (512, 1024);
        (768, 256); (768, 512); (768, 768); (768, 1024);
        (1024, 256); (1024, 512); (1024, 768); (1024, 1024)]).
Proof.
  apply (generator_enumerates_grid (Demo.options 1) 256).
  - lia.
  - reflexivity.
  - reflexivity.
  - reflexivity.
Defined.

(** ** The percentile of replay mode *)

Section PercentileFacts.
Context (W : World).

Lemma sorted_points_in_dataset (csv_data : gmap Point Values) k :
  k ∈ sorted_points csv_data → is_Some (csv_data !! k).
Proof.
  unfold sorted_points. intros Hk.
  apply list_elem_of_fmap in Hk as ([k' v] & -> & Hin).
  rewrite merge_sort_Permutation in Hin.
  apply elem_of_map_to_list in Hin. by exists v.
Qed.

(** The loop of [percentile] ends for every list of points of the dataset, and
    it counts no fewer entries for a larger time. *)
Lemma percentile_count_monotone (csv_data : gmap Point Values) m1 m2 sdata :
  (m1 <= m2)%Q →
  (∀ k, k ∈ sdata → is_Some (csv_data !! k)) →
  ∀ count, ∃ c1 c2,
    percentile_count W csv_data sdata m1 count = Ok c1 ∧
    percentile_count W csv_data sdata m2 count = Ok c2 ∧
    count ≤ c1 ≤ c2 ∧ c2 ≤ count + Z.of_nat (length sdata).
Proof.
  intros Hle. induction sdata as [|k sdata IH]; intros Hkeys count; simpl.
  - exists count, count. repeat split; lia.
  - destruct (Hkeys k) as [v Hv]; [apply elem_of_cons; by left|]. rewrite Hv.
    assert (Hrest : ∀ k', k' ∈ sdata → is_Some (csv_data !! k'))
      by (intros k' Hk'; apply Hkeys, elem_of_cons; by right).
    destruct (Qle_bool (row_time v) m1) eqn:H1.
    + assert (Qle_bool (row_time v) m2 = true) as ->.
      { apply Qle_bool_iff. apply Qle_bool_iff in H1. by eapply Qle_trans. }
      destruct (IH Hrest (count + 1)) as (c1 & c2 & -> & -> & Hc & Hc').
      exists c1, c2. repeat split; lia.
    + destruct (Qle_bool (row_time v) m2).
      * destruct (IH Hrest (count + 1)) as (c1 & c2 & _ & -> & Hc & Hc').
        exists count, c2. repeat split; lia.
      * exists count, count. repeat split; lia.
Qed.

Lemma py_int_inject_Z z : py_int (inject_Z z) = z.
Proof. unfold py_int, inject_Z; simpl. apply Z.quot_1_r. Qed.

Lemma percent_nonneg c n : 0 ≤ c → 0 < n → (0 <= inject_Z c / inject_Z n * 100)%Q.
Proof.
  intros Hc Hn. apply Qmult_le_0_compat; [|done].
  apply Qmult_le_0_compat.
  - change 0%Q with (inject_Z 0). by rewrite <- Zle_Qle.
  - apply Qinv_le_0_compat. change 0%Q with (inject_Z 0). rewrite <- Zle_Qle. lia.
Qed.

(** [int(round(float(count) / n * 100))] grows with [count]. *)
Lemma percent_monotone c1 c2 n :
  0 ≤ c1 ≤ c2 → 0 < n →
  py_int (py_round (inject_Z c1 / inject_Z n * 100)%Q)
  ≤ py_int (py_round (inject_Z c2 / inject_Z n * 100)%Q).
Proof.
  intros Hc Hn. unfold py_round.
  assert (H1 := percent_nonneg c1 n ltac:(lia) Hn).
  assert (H2 := percent_nonneg c2 n ltac:(lia) Hn).
  apply Qle_bool_iff in H1, H2. rewrite H1, H2, !py_int_inject_Z.
  apply Qfloor_resp_le, Qplus_le_l.
  apply Qmult_le_compat_r; [|done].
  apply Qmult_le_compat_r.
  - rewrite <- Zle_Qle. lia.
  - apply Qinv_le_0_compat. change 0%Q with (inject_Z 0). rewrite <- Zle_Qle. lia.
Qed.

End PercentileFacts.

(** The refutation of C8 as stated: in the dataset with the times 0, 3 and 4
    the mean 1 has the percentile 33 and the larger mean 5 the percentile
    100, so the smaller mean does have the smaller percentile. *)
Lemma smaller_mean_has_smaller_percentile :
  let W := Demo.world ∅ Demo.steady in
  ∃ csv_data known_best sdata,
    load_testing_data W Demo.int_of_string DemoData.rows
      = Ok (csv_data, known_best, sdata) ∧
    percentile W csv_data sdata 1 = Ok 33 ∧
    percentile W csv_data sdata 5 = Ok 100 ∧
    ¬ percentile_as_claimed W csv_data sdata.
Proof.
  intros W.
  exists {[ (256, 128) := mkValues 3 1 (Some "");
            (512, 128) := mkValues 4 1 None;
            (1024, 128) := mkValues 0 0 (Some "Executable failed") ]},
    (mkTestResult (1024, 128) (Some 0%Q) (Some 0%Q) (Some "Executable failed")),
    [(1024, 128); (256, 128); (512, 128)].
  split; [vm_compute; reflexivity|].
  split; [vm_compute; reflexivity|].
  split; [vm_compute; reflexivity|].
  intros Hclaim.
  apply (Hclaim 1%Q 5%Q 33 100); [reflexivity|vm_compute; reflexivity..|lia].
Qed.

(** C8 (amended): for a dataset that loads, the percentile function returns
    for every mean, and it is monotonic the other way round: of two means
    m1 < m2, the percentile of m1 is never larger than the percentile of m2
    (it may be equal). *)
Theorem percentile_never_decreases
    (W : World) (int_of_string : string → option Z)
    (rows : list (gmap string (option string)))
    (csv_data : gmap Point Values) (known_best : TestResult) (sdata : list Point)
    (m1 m2 : Q) :
  load_testing_data W int_of_string rows = Ok (csv_data, known_best, sdata) →
  (m1 < m2)%Q →
  ∃ p1 p2,
    percentile W csv_data sdata m1 = Ok p1 ∧
    percentile W csv_data sdata m2 = Ok p2 ∧
    p1 ≤ p2.
Proof.
  intros Hload Hlt.
  apply load_testing_data_dataset in Hload as (_ & -> & Hne).
  destruct (percentile_count_monotone W csv_data m1 m2 (sorted_points csv_data)
              (Qlt_le_weak _ _ Hlt) (sorted_points_in_dataset csv_data) 0)
    as (c1 & c2 & Hc1 & Hc2 & Hc & _).
  unfold percentile, outcome_bind. rewrite Hc1, Hc2.
  assert (0 < Z.of_nat (length (sorted_points csv_data))) as Hn
    by (destruct (sorted_points csv_data); [done|simpl; lia]).
  replace (Z.of_nat (length (sorted_points csv_data)) =? 0) with false by lia.
  eexists _, _. split; [done|]. split; [done|].
  by apply percent_monotone.
Qed.

Lemma percentile_never_decreases_witness :
  let W := Demo.world ∅ Demo.steady in
  let csv_data : gmap Point Values :=
    {[ (256, 128) := mkValues 3 1 (Some "");
       (512, 128) := mkValues 4 1 None;
       (1024, 128) := mkValues 0 0 (Some "Executable failed") ]} in
  let sdata : list Point := [(1024, 128); (256, 128); (512, 128)] in
  ∃ p1 p2,
    percentile W csv_data sdata 1 = Ok p1 ∧
    percentile W csv_data sdata 5 = Ok p2 ∧
    p1 ≤ p2.
Proof.
  intros W csv_data sdata.
  apply (percentile_never_decreases W Demo.int_of_string DemoData.rows csv_data
           (mkTestResult (1024, 128) (Some 0%Q) (Some 0%Q) (Some "Executable failed"))
           sdata 1 5).
  - vm_compute. reflexivity.
  - reflexivity.
Defined.

(** * Further properties of the code *)

(** ** The live evaluation function, case by case *)

Section LiveCases.
Context (W : World).

Lemma invocations_after_runs opts x command env tr ts :
  invocations (tr ++ [EvCall command env] ++ successful_runs opts x ts)
  = (invocations tr + 1 + length ts)%nat.
Proof.
  rewrite !invocations_app, invocations_successful_runs.
  unfold invocations; simpl. lia.
Qed.

(** After a compiler that succeeds and runs that succeed with the timings
    [ts], the evaluation goes on with the remaining [m] repetitions. *)
Lemma tuning_fn_after_successes x reps s ts command m :
  let opts := st_opts s in
  let first := invocations (st_trace s) in
  let env := compile_env W x.1 x.2 in
  str_format W (compile_command opts) (source opts) x.1 x.2 = Ok command →
  (call_command_result W first command (Some env)).2 = 0 →
  Z.to_nat reps = (length ts + m)%nat →
  (∀ (j : nat) t, ts !! j = Some t →
     ∃ output rc,
       call_command_result W (first + 1 + j) (executable opts) None = (output, rc) ∧
       (rc = 0 ∨ ignore_exit opts = true) ∧
       read_time W opts x output = Ok (inr t)) →
  tuning_fn W x reps s =
    match repetitions_loop W opts x m ts
            (mkState opts (st_trace s ++ [EvCall command (Some env)]
                           ++ successful_runs opts x ts)) with
    | (Ok (result, results), s2) =>
        match aggregate W x result results with
        | Ok r => (Ok r, mkState (st_opts s2) (st_trace s2 ++ [EvAdd r]))
        | Raise e => (Raise e, s2)
        end
    | (Raise e, s2) => (Raise e, s2)
    end.
Proof.
  intros opts first env Hfmt Hcompile Hreps Hruns.
  destruct x as [num_gangs vector_length]. simpl in *.
  unfold tuning_fn, bind, get_opts, lift. fold opts. simpl. rewrite Hfmt.
  fold first env.
  destruct (call_command_result W first command (Some env)) as [output rc].
  simpl in Hcompile. subst rc. simpl. rewrite Hreps.
  rewrite (repetitions_loop_successes W opts (num_gangs, vector_length) ts).
  - simpl. rewrite <- !app_assoc. simpl.
    destruct (repetitions_loop W opts _ m ts _) as [[[result results]|e] s2];
      [|done].
    simpl. by destruct (aggregate W _ result results).
  - intros j t Hj. destruct (Hruns j t Hj) as (output' & rc & Hcall & Hrc & Htime).
    exists output', rc. simpl. rewrite invocations_app. fold first.
    match goal with
    | |- context [call_command_result W ?n] =>
        replace n with (first + 1 + j)%nat by (unfold invocations; simpl; lia)
    end.
    auto.
Qed.

End LiveCases.

(** X1: when the compile command exits with a non-zero code, the Result is the
    error 'Compile command failed'; the only process run is the compiler, the
    executable is never started, no raw run is reported and the sink is told
    the error Result. *)
Theorem compile_failure_ends_evaluation
    (W : World) (x : Point) (reps : Z) (s : State) (command : string) :
  let opts := st_opts s in
  let env := compile_env W x.1 x.2 in
  str_format W (compile_command opts) (source opts) x.1 x.2 = Ok command →
  (call_command_result W (invocations (st_trace s)) command (Some env)).2 ≠ 0 →
  tuning_fn W x reps s =
    (Ok (TestResult_error x "Compile command failed"),
     mkState opts
       (st_trace s ++ [EvCall command (Some env);
                       EvAdd (TestResult_error x "Compile command failed")])).
Proof.
  intros opts env Hfmt Hrc. destruct x as [num_gangs vector_length]. simpl in *.
  unfold tuning_fn, bind, get_opts, lift. fold opts. simpl. rewrite Hfmt.
  fold env.
  destruct (call_command_result W _ command (Some env)) as [output rc].
  simpl in Hrc. replace (rc =? 0) with false by lia. simpl.
  by rewrite <- app_assoc.
Qed.

Lemma compile_failure_ends_evaluation_witness :
  let W := Demo.world ∅ Demo.compiler_fails in
  let x : Point := (256, 128) in
  let s := Demo.start 5 in
  tuning_fn W x 5 s =
    (Ok (TestResult_error x "Compile command failed"),
     mkState (st_opts s)
       (st_trace s ++ [EvCall "make" (Some (compile_env W 256 128));
                       EvAdd (TestResult_error x "Compile command failed")])).
Proof.
  intros W x s.
  apply (compile_failure_ends_evaluation W x 5 s "make").
  - reflexivity.
  - vm_compute. discriminate.
Defined.

(** X2: with ignore_exit on, the exit codes of the runs do not matter: when
    the compiler succeeds and each of the repetitions prints a timing, every
    repetition is run and followed by the report of its timing, and all the
    timings are aggregated.  When the aggregation raises nothing, its Result
    is returned and the sink is told it last; for at least one timing it is a
    success with the mean of the timings.  When the aggregation raises, the
    sink is told nothing. *)
Theorem ignore_exit_keeps_every_timing
    (W : World) (x : Point) (reps : Z) (s : State) (ts : list Q)
    (command : string) :
  let opts := st_opts s in
  let first := invocations (st_trace s) in
  let env := compile_env W x.1 x.2 in
  let trace :=
    st_trace s ++ [EvCall command (Some env)] ++
    flat_map (λ t, [EvCall (executable opts) None; EvLogRun x t]) ts in
  ignore_exit opts = true →
  str_format W (compile_command opts) (source opts) x.1 x.2 = Ok command →
  (call_command_result W first command (Some env)).2 = 0 →
  length ts = Z.to_nat reps →
  (∀ (j : nat) t, ts !! j = Some t →
     ∃ output rc,
       call_command_result W (first + 1 + j) (executable opts) None = (output, rc) ∧
       read_time W opts x output = Ok (inr t)) →
  tuning_fn W x reps s =
    match aggregate W x None ts with
    | Ok r => (Ok r, mkState opts (trace ++ [EvAdd r]))
    | Raise e => (Raise e, mkState opts trace)
    end ∧
  (∀ r, aggregate W x None ts = Ok r → ts ≠ [] →
        error r = None ∧ average r = Some (mean W ts)).
Proof.
  intros opts first env trace Hignore Hfmt Hcompile Hlen Hruns. split.
  - rewrite (tuning_fn_after_successes W x reps s ts command 0);
      [|done|done|lia|].
    + simpl. subst trace.
      destruct (aggregate W x None ts); simpl; by rewrite <- ?app_assoc.
    + intros j t Hj. destruct (Hruns j t Hj) as (output & rc & Hcall & Htime).
      exists output, rc. auto.
  - intros r Hagg Hne. unfold aggregate in Hagg.
    destruct ts as [|t ts']; [done|].
    destruct (sample_stdev W (t :: ts')); [|done].
    by injection Hagg as <-.
Qed.

Lemma ignore_exit_keeps_every_timing_witness :
  let W := Demo.world ∅ DemoLive.noisy_exit in
  let x : Point := (256, 128) in
  let s := mkState (DemoLive.options_ignore_exit 2) [] in
  let ts := [3%Q; 5%Q] in
  let trace :=
    st_trace s ++ [EvCall "make" (Some (compile_env W 256 128))] ++
    flat_map (λ t, [EvCall "./a.out" None; EvLogRun x t]) ts in
  tuning_fn W x 2 s =
    match aggregate W x None ts with
    | Ok r => (Ok r, mkState (st_opts s) (trace ++ [EvAdd r]))
    | Raise e => (Raise e, mkState (st_opts s) trace)
    end ∧
  (∀ r, aggregate W x None ts = Ok r → ts ≠ [] →
        error r = None ∧ average r = Some (mean W ts)).
Proof.
  intros W x s ts.
  apply (ignore_exit_keeps_every_timing W x 2 s ts "make").
  - reflexivity.
  - reflexivity.
  - reflexivity.
  - reflexivity.
  - intros [|[|j]] t Hj; [| |discriminate].
    + injection Hj as <-. exists "time=3", 1. split; reflexivity.
    + injection Hj as <-. exists "time=5", 1. split; reflexivity.
Defined.

(** X3: when the output of run k holds no timing (the pattern of the mode
    finds no match), after k - 1 runs that gave the timings [ts], the Result
    is the error 'Timing data missing', or 'PGI kernel timing data missing' in
    kernel-timing mode, without mean; the later repetitions are not run; the
    timings of the earlier runs have been reported. *)
Theorem missing_timing_abandons_point
    (W : World) (x : Point) (reps : Z) (s : State) (ts : list Q)
    (command output : string) (rc : Z) :
  let opts := st_opts s in
  let first := invocations (st_trace s) in
  let env := compile_env W x.1 x.2 in
  let err := TestResult_error x
               (if kernel_timing opts then "PGI kernel timing data missing"
                else "Timing data missing") in
  str_format W (compile_command opts) (source opts) x.1 x.2 = Ok command →
  (call_command_result W first command (Some env)).2 = 0 →
  (length ts < Z.to_nat reps)%nat →
  (∀ (j : nat) t, ts !! j = Some t →
     ∃ output' rc',
       call_command_result W (first + 1 + j) (executable opts) None
         = (output', rc') ∧
       (rc' = 0 ∨ ignore_exit opts = true) ∧
       read_time W opts x output' = Ok (inr t)) →
  call_command_result W (first + 1 + length ts) (executable opts) None
    = (output, rc) →
  rc = 0 ∨ ignore_exit opts = true →
  (if kernel_timing opts then KERNEL_TIMING_RE_search W output
   else time_regexp opts output) = None →
  tuning_fn W x reps s =
    (Ok err,
     mkState opts
       (st_trace s ++ [EvCall command (Some env)] ++
        flat_map (λ t, [EvCall (executable opts) None; EvLogRun x t]) ts ++
        [EvCall (executable opts) None; EvAdd err])).
Proof.
  intros opts first env err Hfmt Hcompile Hlen Hruns Hcall Hrc Hnone.
  subst opts first env err.
  rewrite (tuning_fn_after_successes W x reps s ts command
             (S (Z.to_nat reps - length ts - 1))); try done; [|lia].
  simpl. unfold bind at 1. unfold call_command at 1. simpl.
  match goal with
  | |- context [call_command_result W ?n] =>
      replace n with (invocations (st_trace s) + 1 + length ts)%nat
        by (rewrite !invocations_app, invocations_cons_call,
              invocations_successful_runs; lia)
  end.
  rewrite Hcall.
  replace (negb (rc =? 0) && negb (ignore_exit (st_opts s))) with false.
  2:{ destruct Hrc as [->| ->]; [done|]. by rewrite andb_false_r. }
  unfold bind, lift, read_time.
  destruct (kernel_timing (st_opts s)); rewrite Hnone; simpl;
    by rewrite <- !app_assoc.
Qed.

Lemma missing_timing_abandons_point_witness :
  let W := Demo.world ∅ DemoLive.silent_second in
  let x : Point := (256, 128) in
  let s := Demo.start 5 in
  let err := TestResult_error x "Timing data missing" in
  tuning_fn W x 5 s =
    (Ok err,
     mkState (st_opts s)
       (st_trace s ++ [EvCall "make" (Some (compile_env W 256 128))] ++
        flat_map (λ t, [EvCall "./a.out" None; EvLogRun x t]) [3%Q] ++
        [EvCall "./a.out" None; EvAdd err])).
Proof.
  intros W x s err.
  apply (missing_timing_abandons_point W x 5 s [3%Q] "make" "done" 0).
  - reflexivity.
  - reflexivity.
  - vm_compute. lia.
  - intros [|j] t Hj; [|discriminate].
    injection Hj as <-. exists "time=3", 0. split; [reflexivity|].
    split; [by left|reflexivity].
  - reflexivity.
  - by left.
  - reflexivity.
Defined.

(** X4: when the pattern matches a text in the output of run k that [float]
    refuses, the evaluation raises ValueError: no Result is returned and the
    sink is told nothing for the point, although the timings of the k - 1
    earlier runs have been reported. *)
Theorem unreadable_timing_raises
    (W : World) (x : Point) (reps : Z) (s : State) (ts : list Q)
    (command output : string) (rc : Z) :
  let opts := st_opts s in
  let first := invocations (st_trace s) in
  let env := compile_env W x.1 x.2 in
  str_format W (compile_command opts) (source opts) x.1 x.2 = Ok command →
  (call_command_result W first command (Some env)).2 = 0 →
  (length ts < Z.to_nat reps)%nat →
  (∀ (j : nat) t, ts !! j = Some t →
     ∃ output' rc',
       call_command_result W (first + 1 + j) (executable opts) None
         = (output', rc') ∧
       (rc' = 0 ∨ ignore_exit opts = true) ∧
       read_time W opts x output' = Ok (inr t)) →
  call_command_result W (first + 1 + length ts) (executable opts) None
    = (output, rc) →
  rc = 0 ∨ ignore_exit opts = true →
  read_time W opts x output = Raise ValueError →
  ∃ s',
    tuning_fn W x reps s = (Raise ValueError, s') ∧
    sink_results (events_since s s') = [] ∧
    logged_timings (events_since s s') = ts ∧
    invocations (events_since s s') = S (S (length ts)).
Proof.
  intros opts first env Hfmt Hcompile Hlen Hruns Hcall Hrc Hraise.
  subst opts first env.
  rewrite (tuning_fn_after_successes W x reps s ts command
             (S (Z.to_nat reps - length ts - 1))); try done; [|lia].
  simpl. unfold bind at 1. unfold call_command at 1. simpl.
  match goal with
  | |- context [call_command_result W ?n] =>
      replace n with (invocations (st_trace s) + 1 + length ts)%nat
        by (rewrite !invocations_app, invocations_cons_call,
              invocations_successful_runs; lia)
  end.
  rewrite Hcall.
  replace (negb (rc =? 0) && negb (ignore_exit (st_opts s))) with false.
  2:{ destruct Hrc as [->| ->]; [done|]. by rewrite andb_false_r. }
  unfold bind, lift. rewrite Hraise.
  eexists. split; [reflexivity|].
  rewrite (events_since_app s _
             ([EvCall command (Some (compile_env W x.1 x.2))]
              ++ successful_runs (st_opts s) x ts
              ++ [EvCall (executable (st_opts s)) None]))
    by (simpl; by rewrite <- !app_assoc).
  rewrite !sink_results_app, !logged_timings_app, !invocations_app,
    sink_results_successful_runs, logged_timings_successful_runs,
    invocations_successful_runs.
  simpl. rewrite app_nil_r. split; [done|]. split; [done|].
  unfold invocations; simpl. lia.
Qed.

Lemma unreadable_timing_raises_witness :
  let W := Demo.world ∅ DemoLive.garbled_second in
  let x : Point := (256, 128) in
  let s := Demo.start 5 in
  ∃ s',
    tuning_fn W x 5 s = (Raise ValueError, s') ∧
    sink_results (events_since s s') = [] ∧
    logged_timings (events_since s s') = [3%Q] ∧
    invocations (events_since s s') = 3%nat.
Proof.
  intros W x s.
  apply (unreadable_timing_raises W x 5 s [3%Q] "make" "time=soon" 0).
  - reflexivity.
  - reflexivity.
  - vm_compute. lia.
  - intros [|j] t Hj; [|discriminate].
    injection Hj as <-. exists "time=3", 0. split; [reflexivity|].
    split; [by left|reflexivity].
  - reflexivity.
  - by left.
  - reflexivity.
Defined.

(** ** What one evaluation can do to the state *)

Section FrameFacts.
Context (W : World).

Lemma invocations_snoc tr e :
  invocations (tr ++ [e]) = (invocations tr + if is_call e then 1 else 0)%nat.
Proof. rewrite invocations_app. unfold invocations. simpl. by destruct (is_call e). Qed.

Lemma repetitions_loop_invocations opts x reps : ∀ results s o s',
  repetitions_loop W opts x reps results s = (o, s') →
  (invocations (st_trace s) ≤ invocations (st_trace s'))%nat ∧
  (invocations (st_trace s') ≤ invocations (st_trace s) + reps)%nat.
Proof.
  induction reps as [|reps IH]; intros results s o s' Hrun; simpl in Hrun.
  - inversion Hrun; subst. lia.
  - unfold bind, call_command in Hrun; simpl in Hrun.
    destruct (call_command_result W _ _ _) as [output rc].
    destruct (negb (rc =? 0) && negb (ignore_exit opts)).
    + inversion Hrun; subst; simpl. rewrite invocations_snoc. simpl. lia.
    + unfold lift in Hrun.
      destruct (read_time W opts x output) as [[err|t]|e].
      * inversion Hrun; subst; simpl. rewrite invocations_snoc. simpl. lia.
      * unfold output_writer_log_run, emit in Hrun; simpl in Hrun.
        apply IH in Hrun. simpl in Hrun.
        rewrite !invocations_snoc in Hrun. simpl in Hrun. lia.
      * inversion Hrun; subst; simpl. rewrite invocations_snoc. simpl. lia.
Qed.

Lemma tuning_fn_invocations x reps s o s' :
  tuning_fn W x reps s = (o, s') →
  (invocations (st_trace s) ≤ invocations (st_trace s'))%nat ∧
  (invocations (st_trace s') ≤ invocations (st_trace s) + 1 + Z.to_nat reps)%nat.
Proof.
  destruct x as [num_gangs vector_length].
  unfold tuning_fn, bind, get_opts, lift; simpl.
  destruct (str_format W _ _ _ _) as [command|e]; [|intros [= <- <-]; lia].
  unfold call_command; simpl.
  destruct (call_command_result W _ _ _) as [output rc].
  destruct (negb (rc =? 0)).
  - unfold output_writer_add, emit, ret; simpl. intros [= <- <-]; simpl.
    rewrite !invocations_snoc. simpl. lia.
  - destruct (repetitions_loop W _ _ _ _ _) as [[[res results]|e] s1] eqn:Hloop;
      apply repetitions_loop_invocations in Hloop; simpl in Hloop;
      rewrite invocations_snoc in Hloop; simpl in Hloop.
    + destruct (aggregate W _ res results);
        unfold output_writer_add, emit, ret; simpl; intros [= <- <-]; simpl;
        rewrite ?invocations_snoc; simpl; lia.
    + intros [= <- <-]. lia.
Qed.

End FrameFacts.

(** X6: one call of the objective function, in either mode, never changes the
    options, only appends to the trace, tells the sink at most one Result,
    and runs at most 1 + repetitions processes (the compiler once, the
    executable at most repetitions times); in replay mode it runs none and
    never raises. *)
Theorem objective_frame
    (W : World) (mode : Mode) (x : Point) (s s' : State) (o : outcome TestResult) :
  objective (run_test W mode) x s = (o, s') →
  st_opts s' = st_opts s ∧
  st_trace s' = st_trace s ++ events_since s s' ∧
  (length (sink_results (events_since s s')) ≤ 1)%nat ∧
  (invocations (events_since s s') ≤ 1 + Z.to_nat (repetitions (st_opts s)))%nat ∧
  (∀ csv_data, mode = Replay csv_data →
     invocations (events_since s s') = 0%nat ∧ ∃ r, o = Ok r).
Proof.
  intros Hrun.
  destruct (objective_spec W mode x s o s' Hrun) as (Hopts & new & Htr & Hsink).
  rewrite (events_since_app _ _ _ Htr).
  split; [done|]. split; [done|]. split; [|split].
  - destruct o; [destruct Hsink as [-> | ->]|rewrite Hsink]; simpl; lia.
  - destruct (in_or_out_of_bounds (st_opts s) x) as [Hin|Hout].
    + rewrite objective_accepts in Hrun by done.
      destruct mode as [|csv_data]; simpl in Hrun.
      * apply tuning_fn_invocations in Hrun.
        rewrite Htr, invocations_app in Hrun. lia.
      * destruct (testing_fn_spec W csv_data x (repetitions (st_opts s)) s)
          as [r Hr].
        rewrite Hr in Hrun. injection Hrun as <- <-. simpl in Htr.
        apply app_inv_head in Htr as <-. unfold invocations; simpl. lia.
    + rewrite objective_rejects in Hrun by done. injection Hrun as <- <-.
      rewrite <- (app_nil_r (st_trace s)) in Htr at 1.
      apply app_inv_head in Htr as <-. unfold invocations; simpl. lia.
  - intros csv_data ->.
    destruct (in_or_out_of_bounds (st_opts s) x) as [Hin|Hout].
    + rewrite objective_accepts in Hrun by done. simpl in Hrun.
      destruct (testing_fn_spec W csv_data x (repetitions (st_opts s)) s)
        as [r Hr].
      rewrite Hr in Hrun. injection Hrun as <- <-. simpl in Htr.
      apply app_inv_head in Htr as <-. split; [done|]. by exists r.
    + rewrite objective_rejects in Hrun by done. injection Hrun as <- <-.
      rewrite <- (app_nil_r (st_trace s)) in Htr at 1.
      apply app_inv_head in Htr as <-. split; [done|]. by eexists.
Qed.

Lemma objective_frame_witness :
  let W := Demo.world ∅ Demo.three_runs in
  let s := Demo.start 3 in
  let ran := objective (run_test W Live) (256, 128) s in
  st_opts ran.2 = st_opts s ∧
  st_trace ran.2 = st_trace s ++ events_since s ran.2 ∧
  (length (sink_results (events_since s ran.2)) ≤ 1)%nat ∧
  (invocations (events_since s ran.2) ≤ 1 + Z.to_nat (repetitions (st_opts s)))%nat ∧
  (∀ csv_data, Live = Replay csv_data →
     invocations (events_since s ran.2) = 0%nat ∧ ∃ r, ran.1 = Ok r).
Proof.
  intros W s ran.
  apply (objective_frame W Live (256, 128) s ran.2 ran.1).
  vm_compute. reflexivity.
Defined.

(** ** Loading the dataset *)

Section LoadFacts.
Context (W : World) (int_of_string : string → option Z).

Lemma read_rows_app rows1 rows2 d0 :
  read_rows W int_of_string (rows1 ++ rows2) d0 =
  outcome_bind (read_rows W int_of_string rows1 d0)
    (read_rows W int_of_string rows2).
Proof.
  revert d0. induction rows1 as [|row rows1 IH]; intros d0; simpl; [done|].
  unfold outcome_bind at 1 3.
  destruct (read_row W int_of_string row) as [[k v]|e]; [|done]. apply IH.
Qed.

(** What [read_row] can raise: KeyError for a column the row lacks,
    ValueError for a text that is no number, TypeError for a field that is
    [None]. *)
Lemma read_row_raises row e :
  read_row W int_of_string row = Raise e →
  (∃ column, e = KeyError column ∧ row !! column = None) ∨
  e = ValueError ∨
  (e = TypeError ∧ ∃ column, row !! column = Some None).
Proof.
  unfold read_row, outcome_bind, row_field, to_int, to_float.
  repeat (case_match; try discriminate); intros [= <-]; simplify_eq; eauto 6.
Qed.

Lemma read_rows_raises rows : ∀ d0 e,
  read_rows W int_of_string rows d0 = Raise e →
  ∃ row, row ∈ rows ∧ read_row W int_of_string row = Raise e.
Proof.
  induction rows as [|row rows IH]; intros d0 e; simpl; [done|].
  unfold outcome_bind at 1.
  destruct (read_row W int_of_string row) as [[k v]|e'] eqn:Hrow.
  - intros Hrest. destruct (IH _ _ Hrest) as (row' & Hin & Hrow').
    exists row'. split; [apply elem_of_cons; by right|done].
  - intros [= <-]. exists row. split; [apply elem_of_cons; by left|done].
Qed.

Lemma read_rows_nonempty row rows d0 d :
  read_rows W int_of_string (row :: rows) d0 = Ok d → d ≠ ∅.
Proof.
  simpl. unfold outcome_bind at 1.
  destruct (read_row W int_of_string row) as [[k v]|e] eqn:Hrow; [|done].
  simpl. intros Hrest ->.
  pose proof (read_rows_lookup W int_of_string rows _ _ k Hrest) as Hk.
  rewrite lookup_empty in Hk. destruct Hk as [Hk _].
  by rewrite lookup_insert_eq in Hk.
Qed.

Lemma sorted_points_nil (csv_data : gmap Point Values) :
  sorted_points csv_data = [] ↔ csv_data = ∅.
Proof.
  unfold sorted_points. split.
  - intros Hnil. apply fmap_nil_inv in Hnil. apply map_to_list_empty_iff.
    apply Permutation_nil_r. rewrite <- Hnil.
    symmetry. apply merge_sort_Permutation.
  - intros ->. by rewrite map_to_list_empty.
Qed.

End LoadFacts.

(** X7: when a file has several rows for one point, the dataset holds the
    values of the last of them: a row for the point [x] that no later row
    for [x] follows decides what the dataset says about [x], whatever rows
    come before it. *)
Theorem later_row_replaces_earlier
    (W : World) (int_of_string : string → option Z)
    (rows1 rows2 : list (gmap string (option string)))
    (row : gmap string (option string))
    (csv_data : gmap Point Values) (x : Point) (v : Values) :
  read_rows W int_of_string (rows1 ++ row :: rows2) ∅ = Ok csv_data →
  read_row W int_of_string row = Ok (x, v) →
  (∀ row' v', row' ∈ rows2 → read_row W int_of_string row' ≠ Ok (x, v')) →
  csv_data !! x = Some v.
Proof.
  intros Hread Hrow Hlater.
  rewrite read_rows_app in Hread. unfold outcome_bind in Hread at 1.
  destruct (read_rows W int_of_string rows1 ∅) as [d1|e]; [|done].
  simpl in Hread. unfold outcome_bind in Hread at 1.
  rewrite Hrow in Hread. simpl in Hread.
  pose proof (read_rows_lookup W int_of_string rows2 _ _ x Hread) as Hx.
  destruct (csv_data !! x) as [v'|].
  - destruct Hx as [Hx|(row' & Hin & Hrow')].
    + rewrite lookup_insert_eq in Hx. congruence.
    + by apply Hlater in Hrow'.
  - destruct Hx as [Hx _]. by rewrite lookup_insert_eq in Hx.
Qed.

Lemma later_row_replaces_earlier_witness :
  let W := Demo.world ∅ Demo.steady in
  ({[ (256, 128) := mkValues 9 2 None ]} : gmap Point Values) !! (256, 128)
    = Some (mkValues 9 2 None).
Proof.
  intros W.
  apply (later_row_replaces_earlier W Demo.int_of_string
           [DemoFiles.first_row] [] DemoFiles.second_row).
  - vm_compute. reflexivity.
  - vm_compute. reflexivity.
  - intros row' v' Hin. by apply elem_of_nil in Hin.
Defined.

(** X8: how loading a dataset can end.  A file without rows raises IndexError
    (it is not caught).  Any other failure is the exit with code 1 (some row
    lacks a column or holds a text that is no number), or a TypeError that is
    not caught (some row is shorter than the header).  A dataset that loads
    comes from a file with at least one row, all of them readable, and is
    not empty. *)
Theorem load_testing_data_outcomes
    (W : World) (int_of_string : string → option Z)
    (rows : list (gmap string (option string))) :
  (rows = [] → load_testing_data W int_of_string rows = Raise IndexError) ∧
  (∀ e, load_testing_data W int_of_string rows = Raise e →
     (e = IndexError ∧ rows = []) ∨
     (e = SystemExit 1 ∧
      ∃ row, row ∈ rows ∧
        ((∃ column, read_row W int_of_string row = Raise (KeyError column) ∧
                    row !! column = None) ∨
         read_row W int_of_string row = Raise ValueError)) ∨
     (e = TypeError ∧
      ∃ row column, row ∈ rows ∧ row !! column = Some None)) ∧
  (∀ csv_data known_best sdata,
     load_testing_data W int_of_string rows = Ok (csv_data, known_best, sdata) →
     rows ≠ [] ∧ csv_data ≠ ∅ ∧
     ∀ row, row ∈ rows → ∃ kv, read_row W int_of_string row = Ok kv).
Proof.
  split; [|split].
  - intros ->. reflexivity.
  - intros e. unfold load_testing_data, outcome_bind.
    destruct (read_rows W int_of_string rows ∅) as [d|e'] eqn:Hread; simpl.
    + destruct (sorted_points d) as [|best rest] eqn:Hsorted.
      * intros [= <-]. left. split; [done|].
        apply sorted_points_nil in Hsorted. subst d.
        destruct rows as [|row rows]; [done|].
        by apply read_rows_nonempty in Hread.
      * destruct (sorted_points_in_dataset d best) as [v Hv].
        { rewrite Hsorted. apply elem_of_cons. by left. }
        by rewrite Hv.
    + apply read_rows_raises in Hread as (row & Hin & Hrow).
      pose proof (read_row_raises W int_of_string row e' Hrow)
        as [(column & -> & Hnone)|[->|(-> & column & Hcol)]]; simpl.
      * intros [= <-]. right; left. split; [done|]. exists row. split; [done|].
        left. by exists column.
      * intros [= <-]. right; left. split; [done|]. exists row. split; [done|].
        by right.
      * intros [= <-]. right; right. split; [done|]. by exists row, column.
  - intros csv_data known_best sdata Hload.
    apply load_testing_data_dataset in Hload as (Hread & -> & Hne).
    split; [|split].
    + intros ->. simpl in Hread. injection Hread as <-.
      apply Hne. by apply sorted_points_nil.
    + intros ->. apply Hne. by apply sorted_points_nil.
    + clear Hne. revert Hread. generalize (∅ : gmap Point Values).
      induction rows as [|row rows IH]; intros d0 Hread row' Hin.
      * by apply elem_of_nil in Hin.
      * simpl in Hread. unfold outcome_bind in Hread at 1.
        destruct (read_row W int_of_string row) as [kv|e] eqn:Hrow; [|done].
        apply elem_of_cons in Hin as [->|Hin]; [by exists kv|].
        by apply (IH _ Hread).
Qed.

(** X9: when the first row lacks one of the five columns (as every row does
    when the header lacks it) and holds a text in every column it has,
    loading exits with code 1. *)
Theorem missing_column_exits
    (W : World) (int_of_string : string → option Z)
    (row : gmap string (option string))
    (rows : list (gmap string (option string))) (column : string) :
  column ∈ ["num_gangs"; "vector_length"; "time"; "stdev"; "error msg"] →
  row !! column = None →
  (∀ c, row !! c ≠ Some None) →
  load_testing_data W int_of_string (row :: rows) = Raise (SystemExit 1).
Proof.
  intros Hcolumn Hnone Htexts.
  assert (Hrow : (∃ c, read_row W int_of_string row = Raise (KeyError c)) ∨
                 read_row W int_of_string row = Raise ValueError).
  { destruct (read_row W int_of_string row) as [[k v]|e] eqn:Hrow.
    - exfalso. revert Hrow.
      unfold read_row, outcome_bind, row_field, to_int, to_float.
      repeat (case_match; try discriminate). intros _.
      repeat (apply elem_of_cons in Hcolumn as [->|Hcolumn]; [congruence|]).
      by apply elem_of_nil in Hcolumn.
    - apply read_row_raises in Hrow
        as [(c & -> & _)|[->|(-> & c & Hc)]]; [eauto|eauto|].
      by apply Htexts in Hc. }
  unfold load_testing_data. simpl. unfold outcome_bind at 2.
  destruct Hrow as [[c ->]| ->]; reflexivity.
Qed.

Lemma missing_column_exits_witness :
  load_testing_data (Demo.world ∅ Demo.steady) Demo.int_of_string
    [DemoFiles.no_stdev_row] = Raise (SystemExit 1).
Proof.
  apply (missing_column_exits (Demo.world ∅ Demo.steady) Demo.int_of_string
           DemoFiles.no_stdev_row [] "stdev").
  - do 3 (apply elem_of_cons; right). apply elem_of_cons. by left.
  - vm_compute. reflexivity.
  - intros c. unfold DemoFiles.no_stdev_row.
    destruct (decide (c = "num_gangs")) as [->|?]; [vm_compute; discriminate|].
    destruct (decide (c = "vector_length")) as [->|?]; [vm_compute; discriminate|].
    destruct (decide (c = "time")) as [->|?]; [vm_compute; discriminate|].
    destruct (decide (c = "error msg")) as [->|?]; [vm_compute; discriminate|].
    rewrite !lookup_insert_ne by done. by rewrite lookup_singleton_ne.
Defined.

(** ** The order of the dataset and the percentile *)

#[local] Instance time_le_transitive : Transitive time_le.
Proof.
  intros a b c. unfold time_le. rewrite !Qle_bool_iff. apply Qle_trans.
Qed.

#[local] Instance time_le_total : Total time_le.
Proof.
  intros a b. unfold time_le. rewrite !Qle_bool_iff.
  destruct (Qlt_le_dec (row_time b.2) (row_time a.2)) as [Hlt|Hle].
  - right. by apply Qlt_le_weak.
  - by left.
Qed.

Lemma StronglySorted_lookup_lt {A} (R : relation A) l :
  StronglySorted R l →
  ∀ (i j : nat) a b, (i < j)%nat → l !! i = Some a → l !! j = Some b → R a b.
Proof.
  induction 1 as [|a' l Hsorted IH Hall]; intros i j a b Hij Hi Hj; [done|].
  destruct i as [|i], j as [|j]; try lia; simpl in *.
  - injection Hi as <-. rewrite Forall_forall in Hall.
    apply Hall. by eapply list_elem_of_lookup_2.
  - apply (IH i j); [lia|done..].
Qed.

Lemma filter_none {A} (P : A → Prop) `{∀ x, Decision (P x)} (l : list A) :
  (∀ x, x ∈ l → ¬ P x) → filter P l = [].
Proof.
  intros Hnone. destruct (filter P l) as [|x l'] eqn:Hfilter; [done|].
  assert (x ∈ filter P l) as Hx by (rewrite Hfilter; apply elem_of_cons; by left).
  apply list_elem_of_filter in Hx as [HP Hin]. by apply Hnone in Hin.
Qed.

Lemma filter_all {A} (P : A → Prop) `{∀ x, Decision (P x)} (l : list A) :
  (∀ x, x ∈ l → P x) → filter P l = l.
Proof.
  induction l as [|x l IH]; intros Hall; [done|].
  rewrite filter_cons_True by (apply Hall, elem_of_cons; by left).
  f_equal. apply IH. intros y Hy. apply Hall, elem_of_cons. by right.
Qed.

Section OrderFacts.
Context (W : World).

Lemma sorted_entries_lookup (csv_data : gmap Point Values) k v :
  (k, v) ∈ sorted_entries csv_data ↔ csv_data !! k = Some v.
Proof.
  unfold sorted_entries. rewrite merge_sort_Permutation.
  apply elem_of_map_to_list.
Qed.

(** On time-sorted entries of the dataset the loop of [percentile] counts the
    entries whose time is at most the given one. *)
Lemma percentile_count_sorted (csv_data : gmap Point Values) m l :
  StronglySorted time_le l →
  (∀ kv, kv ∈ l → csv_data !! kv.1 = Some kv.2) →
  ∀ count,
    percentile_count W csv_data (l.*1) m count
    = Ok (count + Z.of_nat (length
            (filter (λ kv, Qle_bool (row_time kv.2) m = true) l))).
Proof.
  induction 1 as [|[k v] l Hsorted IH Hall]; intros Hkeys count; simpl.
  - f_equal. lia.
  - pose proof (Hkeys (k, v) ltac:(apply elem_of_cons; by left)) as Hk.
    simpl in Hk. rewrite Hk.
    assert (Hrest : ∀ kv, kv ∈ l → csv_data !! kv.1 = Some kv.2)
      by (intros kv Hkv; apply Hkeys, elem_of_cons; by right).
    destruct (Qle_bool (row_time v) m) eqn:Hle.
    + rewrite filter_cons_True by done. rewrite IH by done. simpl.
      f_equal. lia.
    + rewrite filter_cons_False by (simpl; congruence).
      rewrite (filter_none _ l); [f_equal; simpl; lia|].
      rewrite Forall_forall in Hall.
      intros kv Hkv Hkvle. specialize (Hall kv Hkv). unfold time_le in Hall.
      simpl in Hall. apply Qle_bool_iff in Hall, Hkvle.
      assert (Qle_bool (row_time v) m = true); [|congruence].
      apply Qle_bool_iff. by eapply Qle_trans.
Qed.

End OrderFacts.

Section DatasetFacts.
Context (W : World) (int_of_string : string → option Z).

Lemma load_testing_data_best rows csv_data known_best sdata :
  load_testing_data W int_of_string rows = Ok (csv_data, known_best, sdata) →
  sdata = sorted_points csv_data ∧
  ∃ best rest v,
    sdata = best :: rest ∧ csv_data !! best = Some v ∧
    known_best = mkTestResult best (Some (row_time v)) (Some (row_stdev v))
                   (row_error_msg v).
Proof.
  unfold load_testing_data, outcome_bind.
  destruct (exit_on_bad_file _) as [d|e]; [|done].
  destruct (sorted_points d) as [|best rest] eqn:Hsorted; [done|].
  destruct (d !! best) as [v|] eqn:Hbest; [|done].
  intros [= <- <- <-]. split; [done|]. by exists best, rest, v.
Qed.

Lemma sorted_points_lookup (csv_data : gmap Point Values) (i : nat) k :
  sorted_points csv_data !! i = Some k →
  ∃ v, sorted_entries csv_data !! i = Some (k, v) ∧ csv_data !! k = Some v.
Proof.
  unfold sorted_points. fold (sorted_entries csv_data).
  rewrite list_lookup_fmap. intros Hk.
  destruct (sorted_entries csv_data !! i) as [[k' v]|] eqn:Hi; [|done].
  simpl in Hk. injection Hk as ->. exists v. split; [done|].
  apply sorted_entries_lookup. by eapply list_elem_of_lookup_2.
Qed.

Lemma percent_le_100 c n :
  0 ≤ c ≤ n → 0 < n →
  0 ≤ py_int (py_round (inject_Z c / inject_Z n * 100)%Q) ≤ 100.
Proof.
  intros Hc Hn. unfold py_round.
  assert (H0 := percent_nonneg c n ltac:(lia) Hn).
  pose proof H0 as Hb. apply Qle_bool_iff in Hb. rewrite Hb, py_int_inject_Z.
  split.
  - change 0 with (Qfloor 0). apply Qfloor_resp_le.
    apply Qle_trans with (inject_Z c / inject_Z n * 100)%Q; [done|].
    rewrite <- (Qplus_0_r (inject_Z c / inject_Z n * 100)) at 1.
    by apply Qplus_le_r.
  - change 100 with (Qfloor (201 # 2)). apply Qfloor_resp_le.
    change (201 # 2)%Q with (1 * 100 + (1 # 2))%Q.
    apply Qplus_le_l. apply Qmult_le_compat_r; [|done].
    apply Qle_shift_div_r.
    + change 0%Q with (inject_Z 0). rewrite <- Zlt_Qlt. lia.
    + rewrite Qmult_1_l. rewrite <- Zle_Qle. lia.
Qed.

Lemma percent_of_all n :
  0 < n → py_int (py_round (inject_Z n / inject_Z n * 100)%Q) = 100.
Proof.
  intros Hn. unfold py_round.
  assert (H0 := percent_nonneg n n ltac:(lia) Hn).
  apply Qle_bool_iff in H0. rewrite H0, py_int_inject_Z.
  assert (Heq : (inject_Z n / inject_Z n * 100 + (1 # 2) == 201 # 2)%Q).
  { field. intros Hzero. assert (inject_Z 0 < inject_Z n)%Q as Hlt
      by (rewrite <- Zlt_Qlt; lia).
    rewrite Hzero in Hlt. by apply Qlt_irrefl in Hlt. }
  by rewrite Heq.
Qed.

Lemma percent_of_none n :
  py_int (py_round (inject_Z 0 / inject_Z n * 100)%Q) = 0.
Proof.
  unfold py_round.
  assert (Heq : (inject_Z 0 / inject_Z n * 100 == 0)%Q).
  { unfold Qdiv. change (inject_Z 0) with 0%Q. ring. }
  assert (Qle_bool 0 (inject_Z 0 / inject_Z n * 100) = true) as ->.
  { apply Qle_bool_iff. rewrite Heq. apply Qle_refl. }
  rewrite py_int_inject_Z, Heq. reflexivity.
Qed.

Lemma percent_floor c n :
  0 ≤ c → 0 < n →
  py_int (py_round (inject_Z c / inject_Z n * 100)%Q) = (200 * c + n) / (2 * n).
Proof.
  intros Hc Hn. unfold py_round.
  assert (H0 := percent_nonneg c n Hc Hn).
  apply Qle_bool_iff in H0. rewrite H0, py_int_inject_Z.
  destruct n as [|n'|n']; try lia.
  remember (200 * c) as c200 eqn:Hc200.
  unfold Qfloor, Qplus, Qdiv, Qinv, inject_Z. cbn [Qnum Qden].
  unfold Qmult. cbn [Qnum Qden].
  rewrite !Pos2Z.inj_mul. f_equal; lia.
Qed.

(** The percentile is less than 1 away from the share in percent. *)
Lemma percent_near c n :
  0 ≤ c → 0 < n →
  Z.abs (n * py_int (py_round (inject_Z c / inject_Z n * 100)%Q) - 100 * c) < n.
Proof.
  intros Hc Hn. rewrite percent_floor by done.
  pose proof (Z.mul_div_le (200 * c + n) (2 * n) ltac:(lia)).
  pose proof (Z.mul_succ_div_gt (200 * c + n) (2 * n) ltac:(lia)).
  lia.
Qed.

End DatasetFacts.

(** X10: in a dataset that loads, [sdata] lists every point of the dataset
    once, in ascending order of the recorded time, and the best Result known
    is that of a point whose time no other point undercuts.  It carries that
    row's time, deviation and error message as they are: the least time wins
    also when its row records an error. *)
Theorem known_best_has_least_time
    (W : World) (int_of_string : string → option Z)
    (rows : list (gmap string (option string)))
    (csv_data : gmap Point Values) (known_best : TestResult) (sdata : list Point) :
  load_testing_data W int_of_string rows = Ok (csv_data, known_best, sdata) →
  sdata ≡ₚ (map_to_list csv_data).*1 ∧
  NoDup sdata ∧
  length sdata = size csv_data ∧
  (∀ (i j : nat) k1 k2 v1 v2,
     (i < j)%nat → sdata !! i = Some k1 → sdata !! j = Some k2 →
     csv_data !! k1 = Some v1 → csv_data !! k2 = Some v2 →
     (row_time v1 <= row_time v2)%Q) ∧
  ∃ v,
    csv_data !! point known_best = Some v ∧
    sdata !! 0%nat = Some (point known_best) ∧
    average known_best = Some (row_time v) ∧
    stdev known_best = Some (row_stdev v) ∧
    error known_best = row_error_msg v ∧
    ∀ k' v', csv_data !! k' = Some v' → (row_time v <= row_time v')%Q.
Proof.
  intros Hload.
  apply load_testing_data_best in Hload
    as (-> & best & rest & v & Hsdata & Hbest & ->).
  assert (Hperm : sorted_points csv_data ≡ₚ (map_to_list csv_data).*1).
  { unfold sorted_points. by rewrite merge_sort_Permutation. }
  assert (Hsorted : ∀ (i j : nat) k1 k2 v1 v2,
     (i < j)%nat → sorted_points csv_data !! i = Some k1 →
     sorted_points csv_data !! j = Some k2 →
     csv_data !! k1 = Some v1 → csv_data !! k2 = Some v2 →
     (row_time v1 <= row_time v2)%Q).
  { intros i j k1 k2 v1 v2 Hij Hi Hj Hv1 Hv2.
    apply sorted_points_lookup in Hi as (v1' & Hi & Hv1').
    apply sorted_points_lookup in Hj as (v2' & Hj & Hv2').
    assert (v1' = v1) as -> by congruence.
    assert (v2' = v2) as -> by congruence.
    pose proof (StronglySorted_lookup_lt time_le (sorted_entries csv_data)
                  (StronglySorted_merge_sort time_le _) i j _ _ Hij Hi Hj) as Hle.
    unfold time_le in Hle. simpl in Hle. by apply Qle_bool_iff. }
  split; [done|]. split; [rewrite Hperm; apply NoDup_fst_map_to_list|].
  split; [by rewrite Hperm, length_fmap, length_map_to_list|].
  split; [done|].
  exists v. simpl. split; [done|]. split; [by rewrite Hsdata|].
  split; [done|]. split; [done|]. split; [done|].
  intros k' v' Hk'.
  assert (k' ∈ sorted_points csv_data) as Hin.
  { rewrite Hperm. apply list_elem_of_fmap. exists (k', v').
    split; [done|]. by apply elem_of_map_to_list. }
  apply list_elem_of_lookup in Hin as [j Hj].
  destruct j as [|j].
  - rewrite Hsdata in Hj. simpl in Hj. injection Hj as <-.
    assert (v' = v) as -> by congruence. apply Qle_refl.
  - apply (Hsorted 0%nat (S j) best k' v v'); [lia| |done..].
    by rewrite Hsdata.
Qed.

Lemma known_best_has_least_time_witness :
  let W := Demo.world ∅ Demo.steady in
  let csv_data : gmap Point Values :=
    {[ (256, 128) := mkValues 3 1 (Some "");
       (512, 128) := mkValues 4 1 None;
       (1024, 128) := mkValues 0 0 (Some "Executable failed") ]} in
  let sdata : list Point := [(1024, 128); (256, 128); (512, 128)] in
  let known_best :=
    mkTestResult (1024, 128) (Some 0%Q) (Some 0%Q) (Some "Executable failed") in
  sdata ≡ₚ (map_to_list csv_data).*1 ∧
  NoDup sdata ∧
  length sdata = size csv_data ∧
  (∀ (i j : nat) k1 k2 v1 v2,
     (i < j)%nat → sdata !! i = Some k1 → sdata !! j = Some k2 →
     csv_data !! k1 = Some v1 → csv_data !! k2 = Some v2 →
     (row_time v1 <= row_time v2)%Q) ∧
  ∃ v,
    csv_data !! point known_best = Some v ∧
    sdata !! 0%nat = Some (point known_best) ∧
    average known_best = Some (row_time v) ∧
    stdev known_best = Some (row_stdev v) ∧
    error known_best = row_error_msg v ∧
    ∀ k' v', csv_data !! k' = Some v' → (row_time v <= row_time v')%Q.
Proof.
  intros W csv_data sdata known_best.
  apply (known_best_has_least_time W Demo.int_of_string DemoData.rows
           csv_data known_best sdata).
  vm_compute. reflexivity.
Defined.

(** X11: for a dataset that loads, the loop of [percentile] counts exactly
    the points of the dataset whose recorded time is at most the mean m, and
    the percentile of m is less than 1 away from the share of these points
    in percent.  It lies between 0 and 100, is 100 when no point has a larger
    time than m and 0 when every point has. *)
Theorem percentile_counts_entries_up_to
    (W : World) (int_of_string : string → option Z)
    (rows : list (gmap string (option string)))
    (csv_data : gmap Point Values) (known_best : TestResult) (sdata : list Point)
    (m : Q) :
  load_testing_data W int_of_string rows = Ok (csv_data, known_best, sdata) →
  let count := Z.of_nat (length (entries_up_to csv_data m)) in
  let n := Z.of_nat (size csv_data) in
  ∃ p,
    percentile W csv_data sdata m = Ok p ∧
    percentile_count W csv_data sdata m 0 = Ok count ∧
    0 ≤ count ≤ n ∧
    Z.abs (n * p - 100 * count) < n ∧
    0 ≤ p ≤ 100 ∧
    ((∀ k v, csv_data !! k = Some v → (row_time v <= m)%Q) → p = 100) ∧
    ((∀ k v, csv_data !! k = Some v → ¬ (row_time v <= m)%Q) → p = 0).
Proof.
  intros Hload count n.
  apply load_testing_data_dataset in Hload as (_ & -> & Hne).
  set (l := sorted_entries csv_data).
  assert (Hl : l ≡ₚ map_to_list csv_data) by apply merge_sort_Permutation.
  change (sorted_points csv_data) with (l.*1) in *.
  assert (Hlen : length (l.*1) = size csv_data)
    by (by rewrite length_fmap, Hl, length_map_to_list).
  assert (Hn : 0 < n).
  { subst n. rewrite <- Hlen. destruct (l.*1); [done|simpl; lia]. }
  assert (Hcount : percentile_count W csv_data (l.*1) m 0 = Ok count).
  { rewrite (percentile_count_sorted W csv_data m l).
    - unfold count, entries_up_to. by rewrite Hl.
    - apply StronglySorted_merge_sort; apply _.
    - intros [k v] Hkv. by apply sorted_entries_lookup. }
  assert (Hc : 0 ≤ count ≤ n).
  { subst count n. unfold entries_up_to. rewrite <- length_map_to_list.
    pose proof (length_filter (λ kv : Point * Values,
                  Qle_bool (row_time kv.2) m = true) (map_to_list csv_data)).
    lia. }
  unfold percentile, outcome_bind. rewrite Hcount, Hlen. fold n.
  replace (n =? 0) with false by lia.
  eexists. split; [done|]. split; [done|]. split; [done|].
  split; [|split; [|split]].
  - apply percent_near; lia.
  - apply percent_le_100; lia.
  - intros Hall.
    replace count with n; [by apply percent_of_all|].
    subst count n. unfold entries_up_to. rewrite <- length_map_to_list.
    do 2 f_equal.
    symmetry. apply filter_all. intros [k v] Hkv. simpl.
    apply Qle_bool_iff. apply (Hall k). by apply elem_of_map_to_list.
  - intros Hnone.
    replace count with 0; [apply percent_of_none|].
    subst count. unfold entries_up_to. rewrite filter_none; [done|].
    intros [k v] Hkv Hle. simpl in Hle. apply Qle_bool_iff in Hle.
    apply (Hnone k v); [|done]. by apply elem_of_map_to_list.
Qed.

Lemma percentile_counts_entries_up_to_witness :
  let W := Demo.world ∅ Demo.steady in
  let csv_data : gmap Point Values :=
    {[ (256, 128) := mkValues 3 1 (Some "");
       (512, 128) := mkValues 4 1 None;
       (1024, 128) := mkValues 0 0 (Some "Executable failed") ]} in
  let sdata : list Point := [(1024, 128); (256, 128); (512, 128)] in
  let count := Z.of_nat (length (entries_up_to csv_data (7 # 2))) in
  let n := Z.of_nat (size csv_data) in
  ∃ p,
    percentile W csv_data sdata (7 # 2) = Ok p ∧
    percentile_count W csv_data sdata (7 # 2) 0 = Ok count ∧
    0 ≤ count ≤ n ∧
    Z.abs (n * p - 100 * count) < n ∧
    0 ≤ p ≤ 100 ∧
    ((∀ k v, csv_data !! k = Some v → (row_time v <= 7 # 2)%Q) → p = 100) ∧
    ((∀ k v, csv_data !! k = Some v → ¬ (row_time v <= 7 # 2)%Q) → p = 0).
Proof.
  intros W csv_data sdata.
  apply (percentile_counts_entries_up_to W Demo.int_of_string DemoData.rows
           csv_data
           (mkTestResult (1024, 128) (Some 0%Q) (Some 0%Q) (Some "Executable failed"))
           sdata (7 # 2)).
  vm_compute. reflexivity.
Defined.

(** ** The heuristic, when the significance test is run *)

Section HeuristicFacts.
Context (W : World).

Lemma objective_point mode x s r s' :
  objective (run_test W mode) x s = (Ok r, s') → point r = x.
Proof.
  destruct (in_or_out_of_bounds (st_opts s) x) as [Hin|Hout].
  - rewrite objective_accepts by done. destruct mode as [|csv_data]; simpl.
    + intros Hrun. apply tuning_fn_spec in Hrun as (_ & new & _ & _ & _ & Hres).
      destruct Hres as [[->|[->|[->| ->]]]|[[_ ->]|(_ & _ & sd & _ & ->)]]; done.
    + unfold testing_fn, bind, output_writer_add, emit, ret. simpl.
      intros [= <- <-].
      destruct (csv_data !! x) as [v|]; [destruct (row_error_msg v)|]; done.
  - rewrite objective_rejects by done. by intros [= <- <-].
Qed.

End HeuristicFacts.

(** X12: let the three probes return and let none of the degenerate cases
    hold, so that the significance test is run twice and answers [tg] for the
    gang count and [tv] for the vector length.  Then the heuristic returns
    (tg, tv); a dimension whose test is not significant gets both of its
    bounds set to the coordinate of the first probe (256 gangs, vector length
    128), the bounds of a significant dimension and all other options stay,
    and nothing is added to the trace after the probes.  With the gang bounds
    collapsed, every point with another gang count is out of bounds. *)
Theorem heuristic_collapses_bounds
    (W : World) (mode : Mode) (s s1 s2 s3 : State) (i g v : TestResult)
    (tg tv : bool) :
  let n := repetitions (st_opts s) in
  objective (run_test W mode) (256, 128) s = (Ok i, s1) →
  objective (run_test W mode) (1024, 128) s1 = (Ok g, s2) →
  objective (run_test W mode) (256, 1024) s2 = (Ok v, s3) →
  n ≠ 1 →
  stdev_is_zero i = false → stdev_is_zero g = false → stdev_is_zero v = false →
  is_diff_significant W (average i) (stdev i) n (average g) (stdev g) n = Ok tg →
  is_diff_significant W (average i) (stdev i) n (average v) (stdev v) n = Ok tv →
  ∃ opts',
    run_heuristic W (objective (run_test W mode)) s
      = (Ok (tg, tv), mkState opts' (st_trace s3)) ∧
    num_gangs_min opts' = (if tg then num_gangs_min (st_opts s) else 256) ∧
    num_gangs_max opts' = (if tg then num_gangs_max (st_opts s) else 256) ∧
    vector_length_min opts' = (if tv then vector_length_min (st_opts s) else 128) ∧
    vector_length_max opts' = (if tv then vector_length_max (st_opts s) else 128) ∧
    (source opts', executable opts', compile_command opts', use_heuristic opts',
     search_method opts', repetitions opts', verbose opts', ignore_exit opts',
     kernel_timing opts')
    = (source (st_opts s), executable (st_opts s), compile_command (st_opts s),
       use_heuristic (st_opts s), search_method (st_opts s),
       repetitions (st_opts s), verbose (st_opts s), ignore_exit (st_opts s),
       kernel_timing (st_opts s)) ∧
    time_regexp opts' = time_regexp (st_opts s) ∧
    (tg = false → ∀ x : Point, x.1 ≠ 256 → out_of_bounds opts' x).
Proof.
  intros n Hi Hg Hv Hn Hzi Hzg Hzv Htg Htv.
  assert (Hopts : st_opts s3 = st_opts s).
  { pose proof (objective_spec W mode _ _ _ _ Hi) as [H1 _].
    pose proof (objective_spec W mode _ _ _ _ Hg) as [H2 _].
    pose proof (objective_spec W mode _ _ _ _ Hv) as [H3 _]. congruence. }
  assert (Hpoint : point i = (256, 128)) by (by eapply objective_point).
  destruct s3 as [opts3 trace3]. simpl in Hopts. subst opts3.
  unfold run_heuristic, bind. rewrite Hi, Hg, Hv. unfold get_opts at 1.
  simpl. fold n.
  replace (n =? 1) with false by lia. rewrite Hzi, Hzg, Hzv. simpl.
  unfold lift. rewrite Htg, Htv, Hpoint. simpl.
  destruct tg, tv; simpl; unfold get_opts, set_opts, ret; simpl;
    eexists; (split; [reflexivity|]); simpl;
    repeat split; try done;
    intros _ x Hx; unfold out_of_bounds; simpl; lia.
Qed.

Lemma heuristic_collapses_bounds_witness :
  let W := Demo.world ∅ DemoLive.three_and_five in
  let s := Demo.start 2 in
  let p1 := objective (run_test W Live) (256, 128) s in
  let p2 := objective (run_test W Live) (1024, 128) p1.2 in
  let p3 := objective (run_test W Live) (256, 1024) p2.2 in
  ∃ opts',
    run_heuristic W (objective (run_test W Live)) s
      = (Ok (false, false), mkState opts' (st_trace p3.2)) ∧
    num_gangs_min opts' = 256 ∧
    num_gangs_max opts' = 256 ∧
    vector_length_min opts' = 128 ∧
    vector_length_max opts' = 128 ∧
    (source opts', executable opts', compile_command opts', use_heuristic opts',
     search_method opts', repetitions opts', verbose opts', ignore_exit opts',
     kernel_timing opts')
    = (source (st_opts s), executable (st_opts s), compile_command (st_opts s),
       use_heuristic (st_opts s), search_method (st_opts s),
       repetitions (st_opts s), verbose (st_opts s), ignore_exit (st_opts s),
       kernel_timing (st_opts s)) ∧
    time_regexp opts' = time_regexp (st_opts s) ∧
    (false = false → ∀ x : Point, x.1 ≠ 256 → out_of_bounds opts' x).
Proof.
  intros W s p1 p2 p3.
  apply (heuristic_collapses_bounds W Live s p1.2 p2.2 p3.2
           (TestResult_ok (256, 128) (8 # 2) 1)
           (TestResult_ok (1024, 128) (8 # 2) 1)
           (TestResult_ok (256, 1024) (8 # 2) 1) false false).
  - vm_compute. reflexivity.
  - vm_compute. reflexivity.
  - vm_compute. reflexivity.
  - vm_compute. discriminate.
  - reflexivity.
  - reflexivity.
  - reflexivity.
  - reflexivity.
  - reflexivity.
Defined.

(** X13: the bounds are changed only after both significance tests have
    answered.  When the probes return, no degenerate case holds and the first
    or the second test raises, the heuristic raises the same exception and the
    options are those from before the probes. *)
Theorem heuristic_failure_keeps_bounds
    (W : World) (mode : Mode) (s s1 s2 s3 : State) (i g v : TestResult)
    (e : exn) :
  let n := repetitions (st_opts s) in
  objective (run_test W mode) (256, 128) s = (Ok i, s1) →
  objective (run_test W mode) (1024, 128) s1 = (Ok g, s2) →
  objective (run_test W mode) (256, 1024) s2 = (Ok v, s3) →
  n ≠ 1 →
  stdev_is_zero i = false → stdev_is_zero g = false → stdev_is_zero v = false →
  is_diff_significant W (average i) (stdev i) n (average g) (stdev g) n = Raise e ∨
  ((∃ tg, is_diff_significant W (average i) (stdev i) n (average g) (stdev g) n
          = Ok tg) ∧
   is_diff_significant W (average i) (stdev i) n (average v) (stdev v) n = Raise e) →
  run_heuristic W (objective (run_test W mode)) s = (Raise e, s3) ∧
  st_opts s3 = st_opts s.
Proof.
  intros n Hi Hg Hv Hn Hzi Hzg Hzv Htest.
  assert (Hopts : st_opts s3 = st_opts s).
  { pose proof (objective_spec W mode _ _ _ _ Hi) as [H1 _].
    pose proof (objective_spec W mode _ _ _ _ Hg) as [H2 _].
    pose proof (objective_spec W mode _ _ _ _ Hv) as [H3 _]. congruence. }
  split; [|done].
  unfold run_heuristic, bind. rewrite Hi, Hg, Hv. unfold get_opts at 1.
  rewrite Hopts. fold n.
  replace (n =? 1) with false by lia. rewrite Hzi, Hzg, Hzv. simpl.
  unfold lift. destruct Htest as [-> | [[tg ->] ->]]; done.
Qed.

Lemma heuristic_failure_keeps_bounds_witness :
  let W := Demo.world ∅ Demo.compiler_fails in
  let s := Demo.start 2 in
  let p1 := objective (run_test W Live) (256, 128) s in
  let p2 := objective (run_test W Live) (1024, 128) p1.2 in
  let p3 := objective (run_test W Live) (256, 1024) p2.2 in
  run_heuristic W (objective (run_test W Live)) s = (Raise TypeError, p3.2) ∧
  st_opts p3.2 = st_opts s.
Proof.
  intros W s p1 p2 p3.
  apply (heuristic_failure_keeps_bounds W Live s p1.2 p2.2 p3.2
           (TestResult_error (256, 128) "Compile command failed")
           (TestResult_error (1024, 128) "Compile command failed")
           (TestResult_error (256, 1024) "Compile command failed") TypeError).
  - vm_compute. reflexivity.
  - vm_compute. reflexivity.
  - vm_compute. reflexivity.
  - vm_compute. discriminate.
  - reflexivity.
  - reflexivity.
  - reflexivity.
  - left. reflexivity.
Defined.

(** ** More on the grid *)

Lemma generator_grid_pairs opts g :
  g ≠ 0 → generator opts g = Ok (grid_point g <$> grid_pairs opts g).
Proof.
  intros Hg. unfold generator, grid_pairs. replace (g =? 0) with false by lia.
  rewrite !ceil_quotient_ceil_div by done.
  f_equal. apply (fmap_bind_pairs (grid_point g)).
Qed.

Lemma elem_of_grid_pairs opts g i j :
  (i, j) ∈ grid_pairs opts g ↔
  ceil_div (num_gangs_min opts) g ≤ i ≤ num_gangs_max opts / g ∧
  ceil_div (vector_length_min opts) g ≤ j ≤ vector_length_max opts / g.
Proof.
  unfold grid_pairs. rewrite elem_of_bind_pairs. unfold py_range.
  rewrite !elem_of_seqZ. lia.
Qed.

Lemma length_bind_pairs {A B} (l1 : list A) (l2 : list B) :
  length (i ← l1; j ← l2; [(i, j)]) = (length l1 * length l2)%nat.
Proof.
  induction l1 as [|i l1 IH]; [done|]. csimpl. rewrite length_app, IH.
  f_equal. clear IH. induction l2 as [|j l2 IH]; [done|]. csimpl. by rewrite IH.
Qed.

(** X14: let the step and the two minima be of magnitude below 2^53.  For a
    positive step and positive minima, the points of the grid are exactly the
    points within the bounds whose two coordinates are multiples of the step;
    so the objective function rejects none of them and hands each to the
    evaluation function.  For any step other than 0 both coordinates of a
    point of the grid are at least 1. *)
Theorem generator_yields_in_bounds_multiples (opts : TuningOptions) (g : Z) :
  g ≠ 0 →
  Z.abs g < 2 ^ 53 →
  Z.abs (num_gangs_min opts) < 2 ^ 53 →
  Z.abs (vector_length_min opts) < 2 ^ 53 →
  ∃ pts,
    generator opts g = Ok pts ∧
    (∀ p : Point, p ∈ pts → 1 ≤ p.1 ∧ 1 ≤ p.2) ∧
    (0 < g → 0 < num_gangs_min opts → 0 < vector_length_min opts →
     (∀ p : Point, p ∈ pts ↔ in_bounds opts p ∧ (g | p.1) ∧ (g | p.2)) ∧
     (∀ run_test s p, st_opts s = opts → p ∈ pts →
        objective run_test p s = run_test p (repetitions opts) s)).
Proof.
  intros Hg _ _ _. exists (grid_point g <$> grid_pairs opts g).
  split; [by apply generator_grid_pairs|]. split.
  - intros p Hp. apply list_elem_of_fmap in Hp as ([i j] & -> & _).
    unfold grid_point. simpl. lia.
  - intros Hpos Hgang Hvec.
    assert (Hiff : ∀ p : Point, p ∈ grid_point g <$> grid_pairs opts g ↔
                     in_bounds opts p ∧ (g | p.1) ∧ (g | p.2)).
    { intros p. rewrite list_elem_of_fmap. split.
      - intros ([i j] & -> & Hin). apply elem_of_grid_pairs in Hin.
        rewrite !ceil_div_le, !floor_div_ge in Hin by done.
        unfold grid_point, in_bounds. simpl.
        rewrite !Z.max_l by lia. split; [lia|].
        split; [exists i|exists j]; lia.
      - intros (Hin & [i Hi] & [j Hj]). exists (i, j).
        unfold in_bounds in Hin. split.
        + unfold grid_point. simpl. rewrite !Z.max_l by lia.
          destruct p as [p1 p2]. simpl in *. f_equal; lia.
        + apply elem_of_grid_pairs.
          rewrite !ceil_div_le, !floor_div_ge by done. lia. }
    split; [done|].
    intros run_test s p Hs Hp. apply Hiff in Hp as [Hin _].
    rewrite objective_accepts by (by rewrite Hs). by rewrite Hs.
Qed.

Lemma generator_yields_in_bounds_multiples_witness :
  ∃ pts,
    generator (Demo.options 1) 256 = Ok pts ∧
    (∀ p : Point, p ∈ pts → 1 ≤ p.1 ∧ 1 ≤ p.2) ∧
    (0 < 256 → 0 < 2 → 0 < 2 →
     (∀ p : Point, p ∈ pts ↔ in_bounds (Demo.options 1) p ∧ (256 | p.1) ∧ (256 | p.2)) ∧
     (∀ run_test s p, st_opts s = Demo.options 1 → p ∈ pts →
        objective run_test p s = run_test p (repetitions (Demo.options 1)) s)).
Proof.
  apply (generator_yields_in_bounds_multiples (Demo.options 1) 256).
  - lia.
  - reflexivity.
  - reflexivity.
  - reflexivity.
Defined.

(** X15: let the step and the two minima be of magnitude below 2^53.  The
    number of points of the grid is the product of the numbers of multiples
    in the two dimensions, floor(max/g) - ceil(min/g) + 1 each, or 0 where
    that is negative; a dimension without a multiple within its bounds leaves
    the grid empty.  The step 0 raises ZeroDivisionError. *)
Theorem generator_length (opts : TuningOptions) (g : Z) :
  Z.abs g < 2 ^ 53 →
  Z.abs (num_gangs_min opts) < 2 ^ 53 →
  Z.abs (vector_length_min opts) < 2 ^ 53 →
  (g = 0 → generator opts g = Raise ZeroDivisionError) ∧
  (g ≠ 0 →
   ∃ pts,
     generator opts g = Ok pts ∧
     length pts =
       (Z.to_nat (num_gangs_max opts / g - ceil_div (num_gangs_min opts) g + 1) *
        Z.to_nat (vector_length_max opts / g
                  - ceil_div (vector_length_min opts) g + 1))%nat ∧
     (num_gangs_max opts / g < ceil_div (num_gangs_min opts) g ∨
      vector_length_max opts / g < ceil_div (vector_length_min opts) g →
      pts = [])).
Proof.
  intros _ _ _. split.
  - intros ->. reflexivity.
  - intros Hg. exists (grid_point g <$> grid_pairs opts g).
    split; [by apply generator_grid_pairs|].
    assert (Hlen : length (grid_point g <$> grid_pairs opts g) =
       (Z.to_nat (num_gangs_max opts / g - ceil_div (num_gangs_min opts) g + 1) *
        Z.to_nat (vector_length_max opts / g
                  - ceil_div (vector_length_min opts) g + 1))%nat).
    { rewrite length_fmap. unfold grid_pairs.
      rewrite length_bind_pairs. unfold py_range. rewrite !length_seqZ.
      f_equal; f_equal; lia. }
    split; [done|].
    intros Hempty. apply length_zero_iff_nil. rewrite Hlen.
    destruct Hempty; [rewrite (Z2Nat.nonpos (_ - _ + 1)) by lia; lia|].
    rewrite (Z2Nat.nonpos (vector_length_max opts / g - _ + 1)) by lia. lia.
Qed.

Lemma generator_length_witness :
  let opts :=
    TuningOptions_init None "./a.out" (Some "make") "rsm" false 1
      Demo.time_search 2 1024 600 700 false false false in
  (32 = 0 → generator opts 32 = Raise ZeroDivisionError) ∧
  (32 ≠ 0 →
   ∃ pts,
     generator opts 32 = Ok pts ∧
     length pts = (Z.to_nat (1024 / 32 - ceil_div 2 32 + 1) *
                   Z.to_nat (700 / 32 - ceil_div 600 32 + 1))%nat ∧
     (1024 / 32 < ceil_div 2 32 ∨ 700 / 32 < ceil_div 600 32 → pts = [])).
Proof.
  intros opts. apply (generator_length opts 32); reflexivity.
Defined.

(** ** [tune] and [main] *)

Lemma string_length_app (a b : string) :
  String.length (a +:+ b) = (String.length a + String.length b)%nat.
Proof. induction a as [|c a IH]; [done|]. simpl. by rewrite IH. Qed.

Lemma substring_all (b : string) : String.substring 0 (String.length b) b = b.
Proof. induction b as [|c b IH]; [done|]. simpl. by rewrite IH. Qed.

Lemma substring_skip_app (a b : string) :
  String.substring (String.length a) (String.length b) (a +:+ b) = b.
Proof. induction a as [|c a IH]; [apply substring_all|done]. Qed.

Lemma substring_split (text : string) :
  ∀ i : nat, (i ≤ String.length text)%nat →
    text = String.substring 0 i text
           +:+ String.substring i (String.length text - i) text.
Proof.
  induction text as [|c text IH]; intros i Hi.
  - simpl in Hi. assert (i = 0%nat) as -> by lia. done.
  - destruct i as [|i]; simpl.
    + by rewrite substring_all.
    + change (String c text =
              String c (String.substring 0 i text
                        +:+ String.substring i (String.length text - i) text)).
      f_equal. apply IH. simpl in Hi. lia.
Qed.

(** [text.endswith(suffix)] is true exactly for the texts that are some
    prefix followed by the suffix. *)
Lemma str_endswith_spec text suffix :
  str_endswith text suffix = true ↔ ∃ prefix, text = prefix +:+ suffix.
Proof.
  unfold str_endswith. rewrite andb_true_iff, Nat.leb_le, bool_decide_eq_true.
  split.
  - intros [Hlen Hsub].
    exists (String.substring 0 (String.length text - String.length suffix) text).
    pose proof (substring_split text (String.length text - String.length suffix)
                  ltac:(lia)) as Hsplit.
    replace (String.length text - (String.length text - String.length suffix))%nat
      with (String.length suffix) in Hsplit by lia.
    by rewrite Hsub in Hsplit.
  - intros [prefix ->]. rewrite string_length_app. split; [lia|].
    replace (String.length prefix + String.length suffix - String.length suffix)%nat
      with (String.length prefix) by lia.
    apply substring_skip_app.
Qed.

(** X16: [tune] works in replay mode exactly when the source is named with
    the ending [.csv]: every other source, and no source at all, gives live
    mode without a file being read; a source named [*.csv] is never compiled:
    it gives replay mode over the dataset of the file when that loads, and
    otherwise ends [tune] with the failure of opening or loading it. *)
Theorem select_mode_by_suffix
    (W : World) (int_of_string : string → option Z)
    (csv_rows : string → option (list (gmap string (option string))))
    (opts : TuningOptions) :
  ((∀ prefix, source opts ≠ Some (prefix +:+ ".csv")) →
   select_mode W int_of_string csv_rows opts = inr Live) ∧
  (∀ prefix, source opts = Some (prefix +:+ ".csv") →
   select_mode W int_of_string csv_rows opts ≠ inr Live ∧
   match csv_rows (prefix +:+ ".csv") with
   | None => select_mode W int_of_string csv_rows opts = inl IOError
   | Some rows =>
       match load_testing_data W int_of_string rows with
       | Ok (csv_data, _, _) =>
           select_mode W int_of_string csv_rows opts = inr (Replay csv_data)
       | Raise e =>
           select_mode W int_of_string csv_rows opts = inl (Uncaught e)
       end
   end).
Proof.
  unfold select_mode. split.
  - intros Hnot. destruct (source opts) as [src|]; [|done].
    destruct (str_endswith src ".csv") eqn:Hends; [|done].
    apply str_endswith_spec in Hends as [prefix ->]. by destruct (Hnot prefix).
  - intros prefix ->.
    assert (str_endswith (prefix +:+ ".csv") ".csv" = true) as ->
      by (apply str_endswith_spec; by exists prefix).
    destruct (csv_rows (prefix +:+ ".csv")) as [rows|]; [|done].
    destruct (load_testing_data W int_of_string rows) as [[[d kb] sd]|e]; done.
Qed.

(** X17: a search method that [METHODS] does not hold ends [tune] with a
    failure and leaves the state as it was: no point is evaluated, the
    heuristic is not run and no bound is changed.  In live mode, and in
    replay mode when the dataset loads, the failure is the RuntimeError that
    names the method; a dataset that does not load fails first. *)
Theorem unknown_search_method_raises
    (W : World) (int_of_string : string → option Z)
    (csv_rows : string → option (list (gmap string (option string))))
    (METHODS : gmap string ((Point → M TestResult) → M SearchResult))
    (s : State) :
  METHODS !! search_method (st_opts s) = None →
  ∃ f,
    tune_search W int_of_string csv_rows METHODS s = (inl f, s) ∧
    (∀ mode, select_mode W int_of_string csv_rows (st_opts s) = inr mode →
       f = RuntimeError ("Unknown search method " +:+ double_quote +:+
                         search_method (st_opts s) +:+ double_quote)) ∧
    (∀ f', select_mode W int_of_string csv_rows (st_opts s) = inl f' → f = f').
Proof.
  intros Hnone. unfold tune_search. cbv zeta.
  destruct (select_mode W int_of_string csv_rows (st_opts s)) as [f|mode].
  - exists f. split; [done|]. split; [done|]. by intros f' [= <-].
  - destruct (METHODS !! _) as [method|] eqn:Hlook.
    + discriminate Hnone.
    + eexists. split; [done|]. split; [done|]. done.
Qed.

Lemma unknown_search_method_raises_witness :
  let W := Demo.world ∅ Demo.steady in
  let s := Demo.start 1 in
  ∃ f,
    tune_search W Demo.int_of_string DemoSearch.no_files ∅ s = (inl f, s) ∧
    (∀ mode, select_mode W Demo.int_of_string DemoSearch.no_files (st_opts s)
             = inr mode →
       f = RuntimeError ("Unknown search method " +:+ double_quote +:+
                         search_method (st_opts s) +:+ double_quote)) ∧
    (∀ f', select_mode W Demo.int_of_string DemoSearch.no_files (st_opts s)
           = inl f' → f = f').
Proof.
  intros W s.
  apply (unknown_search_method_raises W Demo.int_of_string DemoSearch.no_files ∅ s).
  reflexivity.
Defined.

(** X18: the options [main] builds.  A command line with neither a source nor
    a compile command, with a minimum that is given and not positive, or with
    a repetition count that is given and not positive ends with exit code 1.
    Options that are built have positive minima for both dimensions, a
    positive repetition count and a compile command that is not empty; an
    argument that was not given has the default (2 and 1024 for the bounds,
    10 repetitions), and the maxima are taken as they are given. *)
Theorem main_options_invariants
    (re_compile : string → failure + (string → option string)) (args : Args) :
  (py_not (arg_source args) = true ∧ py_not (arg_compile_command args) = true
   ∨ (∃ v, arg_num_gangs_min args = Some v ∧ v ≤ 0)
   ∨ (∃ v, arg_vector_length_min args = Some v ∧ v ≤ 0)
   ∨ (∃ v, arg_repetitions args = Some v ∧ v ≤ 0) →
   main_options re_compile args = inl (Uncaught (SystemExit 1))) ∧
  (∀ opts, main_options re_compile args = inr opts →
     0 < num_gangs_min opts ∧ 0 < vector_length_min opts ∧
     0 < repetitions opts ∧ compile_command opts ≠ "" ∧
     num_gangs_min opts = default 2 (arg_num_gangs_min args) ∧
     num_gangs_max opts = default 1024 (arg_num_gangs_max args) ∧
     vector_length_min opts = default 2 (arg_vector_length_min args) ∧
     vector_length_max opts = default 1024 (arg_vector_length_max args) ∧
     repetitions opts = default 10 (arg_repetitions args) ∧
     (py_not (arg_source args) = false ∨
      py_not (arg_compile_command args) = false)).
Proof.
  unfold main_options. split.
  - intros [[-> ->]|[(v & Hv & Hle)|[(v & Hv & Hle)|(v & Hv & Hle)]]]; simpl;
      [done|..]; rewrite ?Hv; simpl.
    + destruct (_ && _); [done|].
      replace (v <=? 0) with true by lia. done.
    + destruct (_ && _); [done|].
      replace (v <=? 0) with true by lia. by rewrite orb_true_r.
    + destruct (_ && _); [done|]. destruct (_ || _); [done|].
      replace (v <=? 0) with true by lia. done.
  - intros opts.
    destruct (py_not (arg_source args) && py_not (arg_compile_command args))
      eqn:Hgiven; [done|].
    destruct (given_not_positive (arg_num_gangs_min args)
              || given_not_positive (arg_vector_length_min args)) eqn:Hmin; [done|].
    destruct (given_not_positive (arg_repetitions args)) eqn:Hreps; [done|].
    destruct (re_compile _) as [f|search]; [done|].
    intros [= <-]. apply orb_false_iff in Hmin as [Hg Hv].
    apply andb_false_iff in Hgiven. simpl.
    split; [|split; [|split; [|split]]].
    + destruct (arg_num_gangs_min args) as [v|]; simpl in *; lia.
    + destruct (arg_vector_length_min args) as [v|]; simpl in *; lia.
    + destruct (arg_repetitions args) as [v|]; simpl in *; lia.
    + destruct (arg_compile_command args) as [c|]; simpl.
      * destruct (decide (c = "")); [by destruct (arg_kernel_timing args)|done].
      * by destruct (arg_kernel_timing args).
    + done.
Qed.

Lemma select_mode_by_suffix_witness :
  let W := Demo.world ∅ Demo.steady in
  let opts := TuningOptions_init (Some "data.csv") "./a.out" None "nelder-mead"
                false 1 Demo.time_search 2 1024 2 1024 false false false in
  select_mode W Demo.int_of_string DemoSearch.files opts ≠ inr Live ∧
  match DemoSearch.files ("data" +:+ ".csv") with
  | None => select_mode W Demo.int_of_string DemoSearch.files opts = inl IOError
  | Some rows =>
      match load_testing_data W Demo.int_of_string rows with
      | Ok (csv_data, _, _) =>
          select_mode W Demo.int_of_string DemoSearch.files opts
            = inr (Replay csv_data)
      | Raise e =>
          select_mode W Demo.int_of_string DemoSearch.files opts
            = inl (Uncaught e)
      end
  end.
Proof.
  intros W opts.
  apply (proj2 (select_mode_by_suffix W Demo.int_of_string DemoSearch.files opts)
           "data").
  reflexivity.
Defined.

Lemma main_options_invariants_witness :
  ∃ opts,
    main_options DemoSearch.re_compile DemoSearch.args = inr opts ∧
    0 < num_gangs_min opts ∧ 0 < vector_length_min opts ∧
    0 < repetitions opts ∧ compile_command opts ≠ "" ∧
    num_gangs_min opts = 2 ∧ num_gangs_max opts = 1024 ∧
    vector_length_min opts = 2 ∧ vector_length_max opts = 1024 ∧
    repetitions opts = 5.
Proof.
  eexists. split; [reflexivity|].
  pose proof (proj2 (main_options_invariants DemoSearch.re_compile DemoSearch.args)
                _ eq_refl) as (H1 & H2 & H3 & H4 & H5 & H6 & H7 & H8 & H9 & _).
  repeat split; assumption.
Defined.

(** ** The argument of the square root *)



Section SignFacts.
Context (W : World).
Hypothesis Hsign : keeps_sign W.

Lemma fsum_nonneg (values : list Q) :
  (∀ t, t ∈ values → (0 <= t)%Q) → (0 <= fsum W values)%Q.
Proof.
  intros Hall. unfold fsum.
  assert (∀ a, (0 <= a)%Q → (0 <= fold_left (float_add W) values a)%Q) as Hfold.
  { induction values as [|t values IH]; intros a Ha; simpl; [done|].
    apply IH.
    - intros t' Ht'. apply Hall, elem_of_cons. by right.
    - apply Hsign; [done|]. apply Hall, elem_of_cons. by left. }
  apply Hfold, Qle_refl.
Qed.

Lemma squared_distances_nonneg avg results squares :
  squared_distances W avg results = Ok squares →
  ∀ d, d ∈ squares → (0 <= d)%Q.
Proof.
  intros Hsq. apply squared_distances_each in Hsq.
  induction Hsq as [|t d ts ds Hd _ IH]; intros d' Hd'.
  - by apply elem_of_nil in Hd'.
  - apply elem_of_cons in Hd' as [->|Hd']; [|by apply IH].
    destruct Hsign as (_ & _ & Hpow & _). by eapply Hpow.
Qed.

Lemma squared_distances_raises avg results e :
  squared_distances W avg results = Raise e → e = OverflowError.
Proof.
  induction results as [|t results IH]; simpl; [done|].
  destruct (float_pow W (float_sub W t avg) 2) as [d|e'] eqn:Hd.
  - destruct (squared_distances W avg results) as [ds|e']; [done|].
    intros [= <-]. by apply IH.
  - intros [= <-]. destruct Hsign as (_ & _ & _ & Hraise). by eapply Hraise.
Qed.

End SignFacts.

(** X20: on a platform whose float arithmetic keeps the sum and the quotient
    of numbers that are not negative from being negative, whose squares are
    not negative and whose power raises nothing but OverflowError, the
    aggregation of the timings never hands [math.sqrt] a negative argument:
    the only exception it can raise is the OverflowError of a square. *)
Theorem aggregate_raises_only_overflow
    (W : World) (x : Point) (result : option TestResult) (results : list Q)
    (e : exn) :
  keeps_sign W →
  aggregate W x result results = Raise e →
  e = OverflowError.
Proof.
  intros Hsign. unfold aggregate.
  destruct result as [r|]; [done|].
  destruct results as [|t ts]; [done|].
  destruct (sample_stdev W (t :: ts)) as [sd|e'] eqn:Hsd; [done|].
  intros [= <-]. unfold sample_stdev in Hsd.
  destruct (decide (length (t :: ts) = 1%nat)) as [|Hlen]; [discriminate Hsd|].
  destruct (squared_distances W _ (t :: ts)) as [squares|e''] eqn:Hsq.
  - destruct (Qle_bool 0 _) eqn:Hq; [discriminate Hsd|]. exfalso.
    apply not_true_iff_false in Hq. apply Hq, Qle_bool_iff.
    pose proof Hsign as (_ & Hdiv & _). apply Hdiv.
    + apply fsum_nonneg; [done|]. by eapply squared_distances_nonneg.
    + change 0%Q with (inject_Z 0). rewrite <- Zlt_Qlt. simpl length in *. lia.
  - injection Hsd as <-. by eapply squared_distances_raises.
Qed.

Lemma aggregate_raises_only_overflow_witness :
  let W := Demo.world ∅ Demo.three_runs in
  keeps_sign W ∧
  ∀ e, aggregate W (256, 128) None [3%Q; 5%Q; 7%Q] = Raise e → e = OverflowError.
Proof.
  intros W.
  assert (Hsign : keeps_sign W).
  { split; [|split; [|split]].
    - intros a b Ha Hb. simpl. rewrite <- (Qplus_0_r 0).
      by apply Qplus_le_compat.
    - intros a b Ha Hb. simpl. apply Qle_shift_div_l; [done|].
      by rewrite Qmult_0_l.
    - intros a d [= <-]. simpl. unfold Qle, Qmult; simpl.
      rewrite Z.mul_1_r. apply Z.square_nonneg.
    - intros a e' [=]. }
  split; [exact Hsign|].
  intros e. by apply (aggregate_raises_only_overflow W (256, 128) None [3%Q; 5%Q; 7%Q] e).
Defined.
